(** * Holiday & Life Planner: roster extraction and calendar reconciliation

    A shallow embedding of the two algorithms of [app.py]:
    - [extract_holidays]: the forward scan over the roster grid that carries
      the active date block and collects one person's leave entries;
    - [fetch_google_events]: the expansion of calendar events into per-day
      buckets, de-duplicated by text, followed by the "AL ref" filter.

    Python values are modelled by what the code observes of them: text is
    ASCII [string], calendar dates are proleptic Gregorian ordinals in [Z]
    (as [datetime.date.toordinal]), dicts whose iteration order the code
    relies on are association lists, the other dicts are [gmap]s, and
    statements that can raise live in the exception monad [exc]. *)

From Stdlib Require Import ZArith Lia Ascii.
From stdpp Require Import gmap strings list pretty sorting.
From Equations Require Import Equations.

Local Open Scope string_scope.
Local Open Scope list_scope.
Local Open Scope Z_scope.

(** ** Exceptions *)

(** The exceptions the modelled statements can raise.  [ExternalError] stands
    for whatever [requests], [icalendar], [recurring_ical_events] or
    [pandas.read_excel] raise; its text is the text of the exception. *)
Inductive exn : Type :=
  | KeyError
  | AttributeError
  | OverflowError
  | ExternalError (msg : string).

Definition exc (A : Type) : Type := (exn + A)%type.

Definition raise {A : Type} (e : exn) : exc A := inl e.

#[global] Instance exc_ret : MRet exc := fun _ a => inr a.
#[global] Instance exc_bind : MBind exc := fun _ _ f m =>
  match m with
  | inl e => inl e
  | inr a => f a
  end.

#[global] Instance exc_fmap : FMap exc := fun _ _ f m =>
  match m with
  | inl e => inl e
  | inr a => inr (f a)
  end.

Ltac exc_simpl := cbn [mbind exc_bind mret exc_ret raise].

(** [str(e)] for an exception. *)
Definition exn_text (e : exn) : string :=
  match e with
  | KeyError => "KeyError"
  | AttributeError => "'NoneType' object has no attribute 'dt'"
  | OverflowError => "date value out of range"
  | ExternalError msg => msg
  end.

(** ** Python text primitives *)

Module PyStr.

Definition code (c : ascii) : N := N_of_ascii c.

(** [str.isspace] on ASCII: TAB, LF, VT, FF, CR, the four separators
    FS, GS, RS, US, and the space.  [re]'s [\s] on a [str] pattern agrees
    with it. *)
Definition isspace (c : ascii) : bool :=
  let n := code c in
  ((9 <=? n) && (n <=? 13) || (28 <=? n) && (n <=? 32))%N.

(** [\d] on ASCII: the ten decimal digits. *)
Definition isdigit (c : ascii) : bool :=
  let n := code c in ((48 <=? n) && (n <=? 57))%N.

Definition lower_char (c : ascii) : ascii :=
  let n := code c in
  if ((65 <=? n) && (n <=? 90))%N then ascii_of_N (n + 32) else c.

(** [str.lower] *)
Fixpoint lower (s : string) : string :=
  match s with
  | EmptyString => EmptyString
  | String c r => String (lower_char c) (lower r)
  end.

Fixpoint lstrip (s : string) : string :=
  match s with
  | EmptyString => EmptyString
  | String c r => if isspace c then lstrip r else s
  end.

Fixpoint rstrip (s : string) : string :=
  match s with
  | EmptyString => EmptyString
  | String c r =>
      match rstrip r with
      | EmptyString => if isspace c then EmptyString else String c EmptyString
      | r' => String c r'
      end
  end.

(** [str.strip] *)
Definition strip (s : string) : string := lstrip (rstrip s).

(** [re.sub(pattern, '', s)] for a pattern that is one character class
    repeated ([[...]+]): every character of the class is removed. *)
Fixpoint remove_class (cls : ascii -> bool) (s : string) : string :=
  match s with
  | EmptyString => EmptyString
  | String c r => if cls c then remove_class cls r else String c (remove_class cls r)
  end.

(** [needle in s] *)
Fixpoint contains (needle s : string) : bool :=
  String.prefix needle s ||
  match s with
  | EmptyString => false
  | String _ r => contains needle r
  end.

(** [sep.join(l)] *)
Definition join (sep : string) (l : list string) : string := String.concat sep l.

(** [x in l] for a list of strings *)
Definition mem (x : string) (l : list string) : bool := bool_decide (x ∈ l).

(** Zero-padded decimal of a non-negative number, as [%0wd]. *)
Definition pad (w : nat) (n : Z) : string :=
  let s := pretty n in
  String.concat "" (replicate (w - String.length s) "0") +:+ s.

End PyStr.

(** ** Calendar dates *)

Module PyDate.

(** A [datetime.date] is its proleptic Gregorian ordinal: 0001-01-01 is
    day 1 and [date.max], 9999-12-31, is day [max_ordinal]. *)
Definition date : Type := Z.

Definition max_ordinal : Z := 3652059.

Definition is_leap (y : Z) : bool :=
  (y mod 4 =? 0) && (negb (y mod 100 =? 0) || (y mod 400 =? 0)).

Definition days_before_year (y : Z) : Z :=
  let y1 := y - 1 in y1 * 365 + y1 / 4 - y1 / 100 + y1 / 400.

Definition days_in_month_tbl : list Z :=
  [31; 28; 31; 30; 31; 30; 31; 31; 30; 31; 30; 31].

Definition days_in_month (leap : bool) (m : Z) : Z :=
  if (m =? 2) && leap then 29
  else default 0 (days_in_month_tbl !! Z.to_nat (m - 1)).

Definition days_before_month (leap : bool) (m : Z) : Z :=
  foldr Z.add 0 (take (Z.to_nat (m - 1)) days_in_month_tbl)
  + (if (2 <? m) && leap then 1 else 0).

(** [datetime.date(y, m, d).toordinal()] *)
Definition ymd (y m d : Z) : date :=
  days_before_year y + days_before_month (is_leap y) m + d.

(** [datetime._ord2ymd] *)
Definition ord2ymd (n : Z) : Z * Z * Z :=
  let n := n - 1 in
  let n400 := n / 146097 in let n := n mod 146097 in
  let n100 := n / 36524 in let n := n mod 36524 in
  let n4 := n / 1461 in let n := n mod 1461 in
  let n1 := n / 365 in let n := n mod 365 in
  let year := n400 * 400 + 1 + n100 * 100 + n4 * 4 + n1 in
  if (n1 =? 4) || (n100 =? 4) then (year - 1, 12, 31)
  else
    let leapyear := (n1 =? 3) && (negb (n4 =? 24) || (n100 =? 3)) in
    let month := Z.shiftr (n + 50) 5 in
    let preceding := days_before_month leapyear month in
    if n <? preceding
    then (year, month - 1, n - (preceding - days_in_month leapyear (month - 1)) + 1)
    else (year, month, n - preceding + 1).

(** [d + datetime.timedelta(days=1)]: raises [OverflowError] past
    [date.max]. *)
Definition add_day (d : date) : exc date :=
  if d <? max_ordinal then mret (d + 1) else raise OverflowError.

(** A [datetime.datetime] (for the roster, a pandas [Timestamp]): the
    calendar day and the time of day in microseconds. *)
Record datetime : Type := mkDatetime { dt_day : date; dt_usec : Z }.

(** [t.date()] *)
Definition to_date (t : datetime) : date := dt_day t.

Definition midnight (d : date) : datetime := mkDatetime d 0.

(** [str(t)]: ISO format with a space separator; the fraction is printed
    only when it is not zero. *)
Definition str_datetime (t : datetime) : string :=
  let '(y, m, d) := ord2ymd (dt_day t) in
  let secs := dt_usec t / 1000000 in
  let frac := dt_usec t mod 1000000 in
  PyStr.pad 4 y +:+ "-" +:+ PyStr.pad 2 m +:+ "-" +:+ PyStr.pad 2 d +:+ " "
  +:+ PyStr.pad 2 (secs / 3600) +:+ ":" +:+ PyStr.pad 2 (secs / 60 mod 60)
  +:+ ":" +:+ PyStr.pad 2 (secs mod 60)
  +:+ (if frac =? 0 then "" else "." +:+ PyStr.pad 6 frac).

(** Order of two datetimes, as [<=] on [Timestamp]s. *)
Definition datetime_le (a b : datetime) : Prop :=
  dt_day a < dt_day b ∨ (dt_day a = dt_day b ∧ dt_usec a <= dt_usec b).

End PyDate.

Import PyDate.

(** ** The roster grid *)

(** A value of a data frame for which [isinstance(v, datetime.datetime)]
    holds: a pandas [Timestamp], or [NaT], which stands for a blank of a
    column that otherwise holds only dates. *)
Inductive timestamp : Type :=
  | Stamp (t : datetime)
  | NaT.

Coercion Stamp : datetime >-> timestamp.

(** Order of two timestamps as [sort_values] uses it: by time, with [NaT]
    after every [Timestamp] ([na_position='last']). *)
Definition timestamp_le (a b : timestamp) : Prop :=
  match a, b with
  | Stamp x, Stamp y => datetime_le x y
  | _, NaT => True
  | NaT, Stamp _ => False
  end.

(** A cell of the data frame that [pd.read_excel(file, header=None)] gives.
    [CDatetime] holds the cells that are instances of [datetime.datetime],
    [NaT] among them.  A float cell other than NaN is identified by the text
    [str] gives for it (["0.0"], ["7.5"]), which is all the code observes of
    it. *)
Inductive cell : Type :=
  | CDatetime (t : timestamp)
  | CStr (s : string)
  | CInt (n : Z)
  | CFloat (repr : string)
  | CBool (b : bool)
  | CNaN
  | CNone.

Definition grid : Type := list (list cell).

(** [isinstance(c, datetime.datetime)], with the value when it holds. *)
Definition as_datetime (c : cell) : option timestamp :=
  match c with
  | CDatetime t => Some t
  | _ => None
  end.

(** [str(c)] *)
Definition py_str (c : cell) : string :=
  match c with
  | CDatetime (Stamp t) => str_datetime t
  | CDatetime NaT => "NaT"
  | CStr s => s
  | CInt n => pretty n
  | CFloat repr => repr
  | CBool true => "True"
  | CBool false => "False"
  | CNaN => "nan"
  | CNone => "None"
  end.

(** [pd.notna(c)] *)
Definition notna (c : cell) : bool :=
  match c with
  | CDatetime NaT | CNaN | CNone => false
  | _ => true
  end.

(** [row[i]]: raises when the label is absent. *)
Definition row_get (row : list cell) (i : nat) : exc cell :=
  match row !! i with
  | Some c => mret c
  | None => raise KeyError
  end.

(** One record of [my_booked_dates]. *)
Record entry : Type := mkEntry {
  Date : timestamp;
  Original_Type : string;
  Type_ : string
}.

(** [current_block_dates]: a dict from column index to date, iterated in
    insertion order. *)
Definition block : Type := list (nat * timestamp).

(** [d[k] = v] on an insertion-ordered dict. *)
Fixpoint dict_set (k : nat) (v : timestamp) (d : block) : block :=
  match d with
  | [] => [(k, v)]
  | (k', v') :: rest =>
      if decide (k' = k) then (k, v) :: rest else (k', v') :: dict_set k v rest
  end.

(** ** RosterExtractor *)

Definition clean_leave_type (text : string) : string :=
  PyStr.remove_class (fun c => PyStr.isspace c || PyStr.isdigit c) text.

Definition placeholders : list string := [""; "0"; "nan"; "None"; "0.0"].

(** Lines 126-129: the loop that fills a fresh block from an anchor row. *)
Fixpoint fill_block (row : list cell) (cols : list nat) (current_block_dates : block)
  : exc block :=
  match cols with
  | [] => mret current_block_dates
  | col_idx :: cols' =>
      cell_value ← row_get row col_idx;
      match as_datetime cell_value with
      | Some t => fill_block row cols' (dict_set col_idx t current_block_dates)
      | None => fill_block row cols' current_block_dates
      end
  end.

(** Lines 133-143: the loop over the items of the active block. *)
Fixpoint book_row (row : list cell) (items : block) (my_booked_dates : list entry)
  : exc (list entry) :=
  match items with
  | [] => mret my_booked_dates
  | (col_idx, date_val) :: items' =>
      if (col_idx <? length row)%nat then
        leave_code ← row_get row col_idx;
        let code_str := PyStr.strip (py_str leave_code) in
        if notna leave_code && negb (PyStr.mem code_str placeholders) then
          book_row row items'
            (my_booked_dates ++ [mkEntry date_val code_str (clean_leave_type code_str)])
        else book_row row items' my_booked_dates
      else book_row row items' my_booked_dates
  end.

(** The scan state: the entries so far and the active block. *)
Record scan_state : Type := mkScan {
  my_booked_dates : list entry;
  current_block_dates : block
}.

Definition scan_init : scan_state := mkScan [] [].

Definition name_matches (col_b_val : cell) (target_name : string) : bool :=
  (PyStr.lower (PyStr.strip (py_str col_b_val))
   =? PyStr.lower (PyStr.strip target_name))%string.

(** Lines 120-143: the body of the loop over the rows. *)
Definition row_step (target_name : string) (st : scan_state) (row : list cell)
  : exc scan_state :=
  if (length row <? 3)%nat then mret st
  else
    col_b_val ← row_get row 1;
    col_c_val ← row_get row 2;
    match as_datetime col_c_val with
    | Some _ =>
        blk ← fill_block row (seq 2 (length row - 2)) [];
        mret (mkScan (my_booked_dates st) blk)
    | None =>
        if negb (bool_decide (current_block_dates st = []))
           && name_matches col_b_val target_name
        then
          booked ← book_row row (current_block_dates st) (my_booked_dates st);
          mret (mkScan booked (current_block_dates st))
        else mret st
    end.

(** Lines 119-143: the loop over the rows, from a given state. *)
Fixpoint scan_rows (target_name : string) (st : scan_state) (df : grid)
  : exc scan_state :=
  match df with
  | [] => mret st
  | row :: df' =>
      st' ← row_step target_name st row;
      scan_rows target_name st' df'
  end.

(** What [st.error] shows. *)
Definition diagnostic : Type := string.

(** [extract_holidays(file, target_name)], given the outcome of
    [pd.read_excel(file, header=None)].  Only the read is inside the [try];
    the result pairs the returned value (or the exception that escapes the
    scan) with the diagnostics shown. *)
Definition extract_holidays (read_excel : exc grid) (target_name : string)
  : exc (list entry) * list diagnostic :=
  match read_excel with
  | inl e => (mret [], ["Error reading Excel: " +:+ exn_text e])
  | inr df => (my_booked_dates <$> scan_rows target_name scan_init df, [])
  end.

(** The order of two records by their date. *)
Definition entry_le (a b : entry) : Prop := timestamp_le (Date a) (Date b).

#[global] Instance entry_le_dec : RelDecision entry_le.
Proof.
  intros a b. unfold entry_le, timestamp_le, datetime_le.
  destruct (Date a), (Date b); apply _.
Defined.

(** The caller's [df_results.sort_values(by='Date')] (line 153), as a merge
    sort by date.  The statements below rely only on its result being
    ascending and a permutation of its argument, not on how ties fall. *)
Definition sort_values (df_results : list entry) : list entry :=
  merge_sort entry_le df_results.

(** ** Calendar events *)

(** The [.dt] of a [DTSTART] or [DTEND] property: a whole day or a
    time-stamped instant. *)
Inductive dt_value : Type :=
  | DDate (d : date)
  | DDatetime (t : datetime).

(** What the code reads of an event: [event.get(...)] of three properties. *)
Record event : Type := mkEvent {
  SUMMARY : option string;
  DTSTART : option dt_value;
  DTEND : option dt_value
}.

(** Lines 61-64 and 69-72: a datetime is cut to its date. *)
Definition as_date (v : dt_value) : date :=
  match v with
  | DDatetime t => to_date t
  | DDate d => d
  end.

(** Line 57: [str(event.get('SUMMARY', 'Busy'))] *)
Definition summary_of (e : event) : string := default "Busy" (SUMMARY e).

(** Lines 59-78: the resolved start and end dates of an event. *)
Definition event_span (e : event) : exc (date * date) :=
  dt_start ← match DTSTART e with
             | Some p => mret p
             | None => raise AttributeError
             end;
  let start_date := as_date dt_start in
  end_date ← match DTEND e with
             | Some dt_end => mret (as_date dt_end)
             | None => add_day start_date
             end;
  end_date ← (if start_date =? end_date then add_day start_date else mret end_date);
  mret (start_date, end_date).

(** [events_map]: one list of summaries per day. *)
Abbreviation day_buckets := (gmap Z (list string)).

(** Lines 82-86: one summary into one day's bucket. *)
Definition add_summary (current_curr : date) (summary : string)
  (events_map : day_buckets) : day_buckets :=
  match events_map !! current_curr with
  | Some bucket =>
      if PyStr.mem summary bucket then events_map
      else <[current_curr := bucket ++ [summary]]> events_map
  | None => <[current_curr := [summary]]> events_map
  end.

(** Lines 80-88: the [while current_curr < end_date] loop. *)
Equations? mark_days (summary : string) (current_curr end_date : date)
  (events_map : day_buckets) : day_buckets
  by wf (Z.to_nat (end_date - current_curr)) lt :=
  mark_days summary current_curr end_date events_map
    with decide (current_curr < end_date) := {
    | left _ =>
        mark_days summary (current_curr + 1) end_date
          (add_summary current_curr summary events_map);
    | right _ => events_map }.
Proof. lia. Qed.

(** Lines 56-88: the body of the loop over the events. *)
Definition process_event (events_map : day_buckets) (e : event) : exc day_buckets :=
  let summary := summary_of e in
  '(start_date, end_date) ← event_span e;
  mret (mark_days summary start_date end_date events_map).

Fixpoint collect_events (events : list event) (events_map : day_buckets)
  : exc day_buckets :=
  match events with
  | [] => mret events_map
  | e :: events' =>
      events_map' ← process_event events_map e;
      collect_events events' events_map'
  end.

(** Line 94: ["al ref" in s.lower()] *)
Definition is_al_ref (s : string) : bool := PyStr.contains "al ref" (PyStr.lower s).

(** Lines 94-101: the display text of one day. *)
Definition display_text (summary_list : list string) : string :=
  let al_ref_events := List.filter is_al_ref summary_list in
  match al_ref_events with
  | [] => PyStr.join "; " summary_list
  | _ :: _ => PyStr.join "; " al_ref_events
  end.

(** ** CalendarReconciler *)

(** The collaborators of the reconciler: the HTTP client, the calendar
    parser and the recurrence expansion.  Each of them can raise. *)
Record feed_world : Type := mkWorld {
  response : Type;
  calendar : Type;
  requests_get : string → exc response;
  raise_for_status : response → exc unit;
  from_ical : response → exc calendar;
  between : calendar → dt_value → dt_value → exc (list event)
}.

(** Lines 47-103: the body of the [try]. *)
Definition fetch_body (W : feed_world) (url : string) (start_range end_range : dt_value)
  : exc (gmap Z string) :=
  resp ← requests_get W url;
  _ ← raise_for_status W resp;
  cal ← from_ical W resp;
  events ← between W cal start_range end_range;
  events_map ← collect_events events ∅;
  mret (display_text <$> events_map).

(** [fetch_google_events(url, start_range, end_range)]: the returned map and
    the diagnostics shown with [st.error]. *)
Definition fetch_google_events (W : feed_world) (url : string)
  (start_range end_range : dt_value) : gmap Z string * list diagnostic :=
  if bool_decide (url = "") then (∅, [])
  else
    match fetch_body W url start_range end_range with
    | inr final_map => (final_map, [])
    | inl e => (∅, ["Could not load Google Calendar: " +:+ exn_text e])
    end.

(** ** Feeds used in the examples *)

(** A whole-day event with explicit start and end. *)
Record plain_event : Type := mkPlain {
  pe_summary : string;
  pe_start : date;
  pe_end : date
}.

Definition to_event (p : plain_event) : event :=
  mkEvent (Some (pe_summary p)) (Some (DDate (pe_start p))) (Some (DDate (pe_end p))).

(** The instant of a window bound: a date counts as its midnight. *)
Definition instant (v : dt_value) : Z * Z :=
  match v with
  | DDate d => (d, 0)
  | DDatetime t => (dt_day t, dt_usec t)
  end.

Definition instant_ltb (x y : Z * Z) : bool :=
  (x.1 <? y.1) || ((x.1 =? y.1) && (x.2 <? y.2)).

(** An event whose end lies before its start is read with the two
    exchanged. *)
Definition ordered (p : plain_event) : plain_event :=
  if pe_end p <? pe_start p then mkPlain (pe_summary p) (pe_end p) (pe_start p)
  else p.

(** [recurring_ical_events.of(cal).between(a, b)] on a calendar of whole-day
    events without recurrence rules: the events that overlap the span, that
    is, those that start before the span stops and stop after it starts.
    An event is returned whole, not cut to the span.  This stands for the
    library in the examples only; the theorems hold for every
    [feed_world]. *)
Definition overlaps (a b : dt_value) (p : plain_event) : bool :=
  instant_ltb (pe_start p, 0) (instant b) && instant_ltb (instant a) (pe_end p, 0).

(** A reachable feed that holds the given whole-day events. *)
Definition plain_feed (cal : list plain_event) : feed_world :=
  {| response := list plain_event;
     calendar := list plain_event;
     requests_get := fun _ => mret cal;
     raise_for_status := fun _ => mret tt;
     from_ical := fun resp => mret resp;
     between := fun c a b =>
       mret (to_event <$> List.filter (overlaps a b) (ordered <$> c)) |}.

(** A feed whose four steps have the given outcomes. *)
Definition scripted_feed (get status parse : exc unit) (expand : exc (list event))
  : feed_world :=
  {| response := unit;
     calendar := unit;
     requests_get := fun _ => get;
     raise_for_status := fun _ => status;
     from_ical := fun _ => parse;
     between := fun _ _ _ => expand |}.

(** ** Vocabulary of the statements and example data *)

Definition smith_anchor (c0 c1 : cell) : list cell :=
  [c0; c1; CDatetime (midnight (ymd 2024 1 1)); CDatetime (midnight (ymd 2024 1 2))].

Definition smith_row : list cell :=
  [CStr ""; CStr "Smith, John"; CStr "AL1"; CStr "0"].

(** A row opens a block when its cell at column 2 is date-typed. *)
Definition is_anchor (row : list cell) : bool :=
  match row !! 2%nat with
  | Some (CDatetime _) => true
  | _ => false
  end.

(** The date-typed cells of a row among the given columns, with their
    column index. *)
Definition date_cells (row : list cell) (cols : list nat) : block :=
  omap (fun i => t ← (row !! i ≫= as_datetime); Some (i, t)) cols.

(** What one item of the block contributes for a row: nothing when the
    column is outside the row or the code is missing or a placeholder. *)
Definition leave_entry (row : list cell) (item : nat * timestamp) : option entry :=
  leave_code ← row !! item.1;
  let code_str := PyStr.strip (py_str leave_code) in
  if notna leave_code && negb (PyStr.mem code_str placeholders)
  then Some (mkEntry item.2 code_str (clean_leave_type code_str))
  else None.

(** The entries a row that opens no block contributes under a block. *)
Definition row_entries (target_name : string) (b : block) (row : list cell)
  : list entry :=
  match row !! 1%nat with
  | Some col_b_val =>
      if (3 <=? length row)%nat && name_matches col_b_val target_name
      then omap (leave_entry row) b
      else []
  | None => []
  end.

Definition chars_kept (c : ascii) : bool :=
  negb (PyStr.isspace c || PyStr.isdigit c).

(** The data row as a spreadsheet reader delivers it: a blank first cell
    and a numeric zero. *)
Definition smith_row_typed : list cell :=
  [CNaN; CStr "Smith, John"; CStr "AL1"; CInt 0].

Definition no_anchor (g : grid) : Prop := Forall (fun r => is_anchor r = false) g.

(** The state after one row, as a total function. *)
Definition next_state (target_name : string) (st : scan_state) (row : list cell)
  : scan_state :=
  if is_anchor row
  then mkScan (my_booked_dates st) (date_cells row (seq 2 (length row - 2)))
  else mkScan
         (my_booked_dates st ++ row_entries target_name (current_block_dates st) row)
         (current_block_dates st).

(** A roster where the person has two lines under one block. *)
Definition two_line_grid : grid :=
  [ [CNaN; CNaN; CDatetime (midnight (ymd 2024 1 1)); CDatetime (midnight (ymd 2024 1 2))];
    [CNaN; CStr "Smith, John"; CNaN; CStr "AL"];
    [CNaN; CStr "Smith, John"; CStr "SL"; CNaN] ].

(** A ragged grid: the data row stops before the last column of the block. *)
Definition ragged_grid : grid :=
  [ [CNaN; CNaN; CDatetime (midnight (ymd 2024 1 1)); CDatetime (midnight (ymd 2024 1 2))];
    [CNaN];
    [CNaN; CStr "Smith, John"; CStr "AL"] ].

(** The row of a person whose cell at column 2 is blank, in a sheet where
    column 2 holds nothing but dates: the blank is read as [NaT]. *)
Definition blank_date_row : list cell :=
  [CNaN; CStr "Smith, John"; CDatetime NaT; CStr "AL"].

Definition blank_date_grid : grid := [smith_anchor CNaN CNaN; blank_date_row].

(** An anchor row with a blank at column 3, in a sheet where column 3 holds
    nothing but dates, and a row of the person with a date there. *)
Definition blank_block_grid : grid :=
  [ [CNaN; CNaN; CDatetime (midnight (ymd 2024 1 1)); CDatetime NaT];
    [CNaN; CStr "Smith, John"; CStr "AL"; CDatetime (midnight (ymd 2024 1 5))] ].

(** A day's bucket after one summary is added to it (lines 82-86 as a
    function of the old bucket). *)
Definition bucket_add (summary : string) (old : option (list string)) : list string :=
  match old with
  | Some bucket => if PyStr.mem summary bucket then bucket else bucket ++ [summary]
  | None => [summary]
  end.

(** Day [d] lies in the resolved span of the event. *)
Definition covers (e : event) (d : date) : Prop :=
  ∃ start_date end_date,
    event_span e = inr (start_date, end_date) ∧ start_date <= d < end_date.

(** The summary contains "al ref" when letter case is ignored. *)
Definition has_marker (s : string) : Prop :=
  ∃ before after, PyStr.lower s = before +:+ "al ref" +:+ after.

(** The occurrences that lines 47-52 hand to the loop. *)
Definition expanded_events (W : feed_world) (url : string)
  (start_range end_range : dt_value) : exc (list event) :=
  resp ← requests_get W url;
  _ ← raise_for_status W resp;
  cal ← from_ical W resp;
  between W cal start_range end_range.

(** [events_map] when the loop over the occurrences is over. *)
Definition day_map (W : feed_world) (url : string)
  (start_range end_range : dt_value) : exc day_buckets :=
  events ← expanded_events W url start_range end_range;
  collect_events events ∅.

Definition feed_url : string := "https://calendar.example/basic.ics".

Definition trip : plain_event := mkPlain "Trip" (ymd 2024 1 10) (ymd 2024 1 13).

(** A trip that starts before the window asked for and ends inside it. *)
Definition early_trip : plain_event := mkPlain "Trip" (ymd 2024 1 5) (ymd 2024 1 12).

Definition marked_day : list plain_event :=
  [ mkPlain "Dentist" (ymd 2024 1 10) (ymd 2024 1 11);
    mkPlain "AL Ref 4411" (ymd 2024 1 10) (ymd 2024 1 11);
    mkPlain "Dentist" (ymd 2024 1 10) (ymd 2024 1 12) ].

Definition untitled : event := mkEvent None (Some (DDate (ymd 2024 1 10))) None.

Definition no_start : event := mkEvent (Some "Broken") None None.

Definition standup_twice : list plain_event :=
  [ mkPlain "Standup" (ymd 2024 1 10) (ymd 2024 1 11);
    mkPlain "Standup" (ymd 2024 1 10) (ymd 2024 1 12) ].

(** ** Vocabulary of the further properties *)

(** Every character of the text satisfies the test. *)
Fixpoint all_chars (p : ascii -> bool) (s : string) : bool :=
  match s with
  | EmptyString => true
  | String c r => p c && all_chars p r
  end.

(** The characters [clean_leave_type] removes. *)
Definition space_or_digit (c : ascii) : bool := PyStr.isspace c || PyStr.isdigit c.

(** The data row [r], read under the anchor row [a], has a leave code for
    the entry [e]: the name cell of [r] matches the target and, at some
    column from 2 on where [a] holds the date of [e] (a [Timestamp] or
    [NaT]), [r] holds a cell that is not missing ([NaT] is missing) and
    whose trimmed text, not a placeholder, is the original code of [e]. *)
Definition yields (a r : list cell) (target_name : string) (e : entry) : Prop :=
  ∃ nm i c,
    r !! 1%nat = Some nm
    ∧ name_matches nm target_name = true
    ∧ (2 <= i)%nat
    ∧ a !! i = Some (CDatetime (Date e))
    ∧ r !! i = Some c
    ∧ notna c = true
    ∧ Original_Type e = PyStr.strip (py_str c)
    ∧ (Original_Type e ∉ placeholders)
    ∧ Type_ e = clean_leave_type (Original_Type e).

(** The grid holds a row that opens no block (its cell at column 2 is
    neither a [Timestamp] nor [NaT]) and yields [e] under the anchor row
    that was the last one before it. *)
Definition produced (df : grid) (target_name : string) (e : entry) : Prop :=
  ∃ pre a mid r post,
    df = pre ++ a :: mid ++ r :: post
    ∧ is_anchor a = true
    ∧ no_anchor mid
    ∧ is_anchor r = false
    ∧ yields a r target_name e.

(** The span of the event resolves: processing it raises nothing. *)
Definition span_ok (e : event) : Prop := ∃ p, event_span e = inr p.

(** [covers], as a test. *)
Definition covers_b (d : date) (e : event) : bool :=
  match event_span e with
  | inr (start_date, end_date) => (start_date <=? d) && (d <? end_date)
  | inl _ => false
  end.

(** The summaries of the occurrences that cover day [d], in feed order and
    with repetitions. *)
Definition day_summaries (evs : list event) (d : date) : list string :=
  summary_of <$> List.filter (covers_b d) evs.

(** The texts of a list in the order of their first appearance. *)
Definition first_seen (ss : list string) : list string :=
  reverse (remove_dups (reverse ss)).

(** The date of a record as [.dt.date] gives it: [NaT] stays missing. *)
Definition stamp_date (t : timestamp) : option date :=
  match t with
  | Stamp x => Some (to_date x)
  | NaT => None
  end.

(** Lines 156-166 of the caller: the "My Calendar" column of the sorted
    records, for the window that lines 158-159 computed, with the
    diagnostics shown on the way.  [map] leaves a date that is missing or
    not a key of the dict without a value, and [fillna] puts "-" there. *)
Definition my_calendar (W : feed_world) (ical_url : string)
  (min_date max_date : dt_value) (df_results : list entry)
  : list string * list diagnostic :=
  if bool_decide (ical_url = "") then ((fun _ => "No Link Provided") <$> df_results, [])
  else
    let '(gcal_events, shown) := fetch_google_events W ical_url min_date max_date in
    ((fun e => default "-" (stamp_date (Date e) ≫= fun d => gcal_events !! d))
       <$> df_results, shown).

(** * Properties of the Python primitives *)

Example ymd_2024_01_01 : ymd 2024 1 1 = 738886.
Proof. reflexivity. Qed.

Example ord2ymd_2024_02_29 : ord2ymd (ymd 2024 2 29) = (2024, 2, 29).
Proof. reflexivity. Qed.

Example ymd_max : ymd 9999 12 31 = max_ordinal.
Proof. reflexivity. Qed.

Example str_datetime_ex :
  str_datetime (mkDatetime (ymd 2024 1 2) 34200000000) = "2024-01-02 09:30:00".
Proof. reflexivity. Qed.

Example strip_ex : PyStr.strip "  Smith, John " = "Smith, John".
Proof. reflexivity. Qed.

Example clean_leave_type_AL1 : clean_leave_type "AL1" = "AL".
Proof. reflexivity. Qed.

Example clean_leave_type_Sick2 : clean_leave_type "Sick 2" = "Sick".
Proof. reflexivity. Qed.

Lemma clean_leave_type_chars (s : string) :
  String.list_ascii_of_string (clean_leave_type s)
  = List.filter chars_kept (String.list_ascii_of_string s).
Proof.
  unfold clean_leave_type, chars_kept.
  induction s as [|c r IH]; simpl; [reflexivity|].
  destruct (PyStr.isspace c || PyStr.isdigit c); simpl; congruence.
Qed.

(** * Properties of the roster extraction *)

Section RowLemmas.

Variable target_name : string.

Lemma row_get_Some (row : list cell) (i : nat) (c : cell) :
  row !! i = Some c → row_get row i = inr c.
Proof. unfold row_get. intros ->. reflexivity. Qed.

Lemma dict_set_fresh (k : nat) (v : timestamp) (d : block) :
  k ∉ d.*1 → dict_set k v d = d ++ [(k, v)].
Proof.
  induction d as [|[k' v'] d IH]; simpl; intros Hk; [reflexivity|].
  rewrite not_elem_of_cons in Hk. destruct Hk as [Hne Hk].
  destruct (decide (k' = k)); [congruence|]. by rewrite IH.
Qed.

Lemma fill_block_spec (row : list cell) (cols : list nat) (b : block) :
  Forall (fun i => (i < length row)%nat) cols →
  NoDup cols →
  (∀ k, k ∈ b.*1 → k ∉ cols) →
  fill_block row cols b = inr (b ++ date_cells row cols).
Proof.
  revert b. induction cols as [|i cols IH]; intros b Hlt Hnd Hfresh; simpl.
  - by rewrite app_nil_r.
  - apply Forall_cons in Hlt as [Hi Hlt]. apply NoDup_cons in Hnd as [Hi' Hnd].
    destruct (lookup_lt_is_Some_2 row i Hi) as [c Hc].
    rewrite (row_get_Some _ _ _ Hc). simpl. rewrite Hc. simpl.
    destruct (as_datetime c) as [t|] eqn:Ht; simpl.
    + rewrite dict_set_fresh.
      * rewrite IH; [by rewrite <- app_assoc|done|done|].
        intros k. rewrite fmap_app, elem_of_app. simpl.
        intros [Hk|Hk%list_elem_of_singleton] Hin; [|congruence].
        apply (Hfresh k Hk). by right.
      * intros Hk. apply (Hfresh i Hk). by left.
    + apply IH; [done|done|].
      intros k Hk Hin. apply (Hfresh k Hk). by right.
Qed.

Lemma book_row_spec (row : list cell) (items : block) (acc : list entry) :
  book_row row items acc = inr (acc ++ omap (leave_entry row) items).
Proof.
  revert acc. induction items as [|[i d] items IH]; intros acc; simpl.
  - by rewrite app_nil_r.
  - unfold leave_entry at 1. simpl.
    destruct (Nat.ltb_spec i (length row)) as [Hi|Hi].
    + destruct (lookup_lt_is_Some_2 row i Hi) as [c Hc].
      rewrite (row_get_Some _ _ _ Hc), Hc. simpl.
      destruct (notna c && negb (PyStr.mem (PyStr.strip (py_str c)) placeholders)).
      * rewrite IH. by rewrite <- app_assoc.
      * apply IH.
    + rewrite (lookup_ge_None_2 row i) by lia. simpl. apply IH.
Qed.

Lemma is_anchor_length (row : list cell) :
  is_anchor row = true → (3 <= length row)%nat.
Proof.
  unfold is_anchor. destruct (row !! 2%nat) eqn:H; [|done].
  intros _. apply lookup_lt_Some in H. lia.
Qed.

Lemma row_step_short (st : scan_state) (row : list cell) :
  (length row < 3)%nat → row_step target_name st row = inr st.
Proof.
  intros H. unfold row_step.
  destruct (Nat.ltb_spec (length row) 3); [reflexivity|lia].
Qed.

Lemma row_step_anchor (st : scan_state) (row : list cell) :
  is_anchor row = true →
  row_step target_name st row
  = inr (mkScan (my_booked_dates st) (date_cells row (seq 2 (length row - 2)))).
Proof.
  intros Ha. pose proof (is_anchor_length _ Ha) as Hlen.
  unfold row_step. destruct (Nat.ltb_spec (length row) 3); [lia|].
  destruct (lookup_lt_is_Some_2 row 1) as [b Hb]; [lia|].
  unfold is_anchor in Ha. destruct (row !! 2%nat) as [c|] eqn:Hc; [|done].
  rewrite (row_get_Some _ _ _ Hb), (row_get_Some _ _ _ Hc). simpl.
  destruct c; try done. simpl.
  rewrite fill_block_spec; [reflexivity| |apply NoDup_seq|].
  - apply Forall_forall. intros i Hi%elem_of_seq. lia.
  - intros k Hk. by apply elem_of_nil in Hk.
Qed.

Lemma row_step_data (st : scan_state) (row : list cell) :
  is_anchor row = false →
  row_step target_name st row
  = inr (mkScan
           (my_booked_dates st ++ row_entries target_name (current_block_dates st) row)
           (current_block_dates st)).
Proof.
  intros Ha. unfold row_step, row_entries. destruct st as [booked blk].
  cbn [my_booked_dates current_block_dates].
  destruct (Nat.ltb_spec (length row) 3) as [Hlen|Hlen].
  - rewrite (proj2 (Nat.leb_gt 3 (length row))) by lia.
    destruct (row !! 1%nat); simpl; by rewrite app_nil_r.
  - rewrite (proj2 (Nat.leb_le 3 (length row))) by lia.
    destruct (lookup_lt_is_Some_2 row 1) as [b Hb]; [lia|].
    destruct (lookup_lt_is_Some_2 row 2) as [c Hc]; [lia|].
    rewrite (row_get_Some _ _ _ Hb), (row_get_Some _ _ _ Hc), Hb.
    unfold is_anchor in Ha. rewrite Hc in Ha.
    assert (as_datetime c = None) as Hno by (by destruct c).
    cbn [mbind exc_bind]. rewrite Hno.
    destruct (name_matches b target_name); cbn [andb].
    + case_bool_decide as Hnil; cbn [negb andb mret exc_ret].
      * rewrite Hnil. simpl. by rewrite app_nil_r.
      * rewrite book_row_spec. reflexivity.
    + rewrite andb_false_r. cbn [mret exc_ret]. by rewrite app_nil_r.
Qed.

End RowLemmas.

Section ScanLemmas.

Variable target_name : string.

Lemma row_step_total (st : scan_state) (row : list cell) :
  row_step target_name st row = inr (next_state target_name st row).
Proof.
  unfold next_state. destruct (is_anchor row) eqn:Ha.
  - by apply row_step_anchor.
  - by apply row_step_data.
Qed.

Lemma scan_rows_total (st : scan_state) (df : grid) :
  scan_rows target_name st df = inr (foldl (next_state target_name) st df).
Proof.
  revert st. induction df as [|row df IH]; intros st; simpl; [reflexivity|].
  rewrite row_step_total. simpl. apply IH.
Qed.

Lemma date_cells_elem (row : list cell) (i : nat) (t : timestamp) :
  (i, t) ∈ date_cells row (seq 2 (length row - 2))
  ↔ (2 <= i)%nat ∧ row !! i = Some (CDatetime t).
Proof.
  unfold date_cells. rewrite list_elem_of_omap. split.
  - intros [j [Hj Heq]]. apply elem_of_seq in Hj.
    destruct (row !! j) as [c|] eqn:Hc; simpl in Heq; [|done].
    destruct c; simplify_eq/=. split; [lia|done].
  - intros [Hi Hc]. exists i. split.
    + apply elem_of_seq. apply lookup_lt_Some in Hc. lia.
    + rewrite Hc. reflexivity.
Qed.

Lemma leave_entry_date (row : list cell) (item : nat * timestamp) (e : entry) :
  leave_entry row item = Some e →
  Date e = item.2 ∧ (item.1 < length row)%nat
  ∧ Type_ e = clean_leave_type (Original_Type e).
Proof.
  unfold leave_entry. destruct (row !! item.1) as [c|] eqn:Hc; simpl; [|done].
  apply lookup_lt_Some in Hc.
  destruct (notna c && _); intros; simplify_eq/=. done.
Qed.

Lemma row_entries_dates (b : block) (row : list cell) (e : entry) :
  e ∈ row_entries target_name b row →
  ∃ i, (i, Date e) ∈ b ∧ (i < length row)%nat.
Proof.
  unfold row_entries. destruct (row !! 1%nat); [|by intros ?%elem_of_nil].
  destruct (_ && _); [|by intros ?%elem_of_nil].
  rewrite list_elem_of_omap. intros [[i d] [Hin He]].
  apply leave_entry_date in He as (-> & Hi & _). by exists i.
Qed.

Lemma row_entries_sublist (b : block) (row : list cell) :
  Date <$> row_entries target_name b row `sublist_of` b.*2.
Proof.
  unfold row_entries. destruct (row !! 1%nat); [|apply sublist_nil_l].
  destruct (_ && _); [|apply sublist_nil_l].
  induction b as [|[i d] b IH]; simpl; [constructor|].
  destruct (leave_entry row (i, d)) as [e|] eqn:He; simpl.
  - apply leave_entry_date in He as (-> & _). by constructor.
  - by constructor.
Qed.

Lemma foldl_no_anchor (st : scan_state) (g : grid) :
  no_anchor g →
  ∃ new, foldl (next_state target_name) st g
         = mkScan (my_booked_dates st ++ new) (current_block_dates st)
         ∧ ∀ e, e ∈ new → ∃ i, (i, Date e) ∈ current_block_dates st.
Proof.
  revert st. induction g as [|row g IH]; intros st Hg; simpl.
  - exists []. rewrite app_nil_r. destruct st. split; [done|].
    by intros e ?%elem_of_nil.
  - apply Forall_cons in Hg as [Hrow Hg].
    destruct (IH (next_state target_name st row) Hg) as (new & -> & Hnew).
    unfold next_state in *. rewrite Hrow in *. simpl in *.
    exists (row_entries target_name (current_block_dates st) row ++ new).
    rewrite app_assoc. split; [done|].
    intros e [He|He]%elem_of_app; [|by apply Hnew].
    apply row_entries_dates in He as (i & Hi & _). by exists i.
Qed.

Lemma foldl_prefix (st : scan_state) (g : grid) :
  my_booked_dates st `prefix_of` my_booked_dates (foldl (next_state target_name) st g).
Proof.
  revert st. induction g as [|row g IH]; intros st; simpl; [done|].
  etrans; [|apply IH]. unfold next_state.
  destruct (is_anchor row); simpl; [done|]. by apply prefix_app_r.
Qed.

Lemma extract_holidays_eq (df : grid) :
  extract_holidays (inr df) target_name
  = (inr (my_booked_dates (foldl (next_state target_name) scan_init df)), []).
Proof. unfold extract_holidays. by rewrite scan_rows_total. Qed.

End ScanLemmas.

#[global] Instance entry_le_total : Total entry_le.
Proof.
  intros a b. unfold entry_le, timestamp_le, datetime_le.
  destruct (Date a), (Date b); try tauto. lia.
Qed.


Example extract_ragged :
  extract_holidays (inr ragged_grid) "Smith, John"
  = (inr [mkEntry (midnight (ymd 2024 1 1)) "AL" "AL"], []).
Proof. reflexivity. Qed.

Example blank_date_row_is_anchor : is_anchor blank_date_row = true.
Proof. reflexivity. Qed.

Example extract_blank_date_row :
  extract_holidays (inr blank_date_grid) "Smith, John" = (inr [], []).
Proof. reflexivity. Qed.

Example extract_blank_block :
  extract_holidays (inr blank_block_grid) "Smith, John"
  = (inr [mkEntry (midnight (ymd 2024 1 1)) "AL" "AL";
          mkEntry NaT "2024-01-05 00:00:00" "--::"], []).
Proof. reflexivity. Qed.

Example extract_smith_typed :
  extract_holidays (inr [smith_anchor CNaN CNaN; smith_row_typed]) " smith, john "
  = (inr [mkEntry (midnight (ymd 2024 1 1)) "AL1" "AL"], []).
Proof. reflexivity. Qed.

(** C1. The end-to-end scenario: whatever the first two cells of the anchor
    row hold, the grid made of the anchor row with the dates 2024-01-01 and
    2024-01-02 at columns 2 and 3 and of the data row
    ["", "Smith, John", "AL1", "0"] yields, for the target "Smith, John",
    exactly one entry: date 2024-01-01, original code "AL1", type "AL".
    The type of every entry the scan produces is its original code without
    its whitespace and digit characters. *)
Theorem extract_smith_scenario (c0 c1 : cell) :
  extract_holidays (inr [smith_anchor c0 c1; smith_row]) "Smith, John"
  = (inr [mkEntry (midnight (ymd 2024 1 1)) "AL1" "AL"], [])
  ∧ (∀ row items acc e,
       book_row row items [] = inr acc → e ∈ acc →
       String.list_ascii_of_string (Type_ e)
       = List.filter chars_kept (String.list_ascii_of_string (Original_Type e))).
Proof.
  split; [reflexivity|].
  intros row items acc e. rewrite book_row_spec. intros [= <-].
  intros [item [_ He]]%list_elem_of_omap.
  apply leave_entry_date in He as (_ & _ & ->). apply clean_leave_type_chars.
Qed.

Lemma extract_smith_scenario_witness :
  String.list_ascii_of_string "AL"
  = List.filter chars_kept (String.list_ascii_of_string "AL1").
Proof.
  destruct (extract_smith_scenario CNaN CNaN) as [_ H].
  apply (H smith_row [(2%nat, Stamp (midnight (ymd 2024 1 1)))]
           [mkEntry (midnight (ymd 2024 1 1)) "AL1" "AL"]
           (mkEntry (midnight (ymd 2024 1 1)) "AL1" "AL")).
  - reflexivity.
  - by left.
Defined.



Example extract_after_blank_date_row :
  extract_holidays
    (inr ([smith_anchor CNaN CNaN] ++ blank_date_row :: [smith_row_typed]))
    "Smith, John"
  = (inr [mkEntry NaT "AL1" "AL"], []).
Proof. reflexivity. Qed.

(** What fails of C5 as stated: the person has two lines under one block,
    leave on the 2nd in the first line and on the 1st in the second; the
    entries come out in row order, the later date first. *)
Lemma extract_not_sorted :
  ∃ es, extract_holidays (inr two_line_grid) "Smith, John" = (inr es, [])
        ∧ ¬ Sorted entry_le es.
Proof.
  eexists. split; [reflexivity|].
  intros H. apply Sorted_inv in H as [_ H]. apply HdRel_inv in H.
  unfold entry_le, datetime_le in H. vm_compute in H.
  destruct H as [H|[H _]]; discriminate H.
Qed.

(** C5, amended.  [extract_holidays] returns the entries in insertion order:
    the entries of a grid are a prefix of the entries of any extension of
    it, and the entries one row adds carry dates in the order of the
    columns of the active block.  It is the caller's sort by date that
    orders them: the sorted records are ascending by date and a
    permutation of what was extracted. *)
Theorem extract_insertion_order (target_name : string) (g1 g2 : grid)
  (st : scan_state) (row : list cell) :
  ∃ es1 es,
    extract_holidays (inr g1) target_name = (inr es1, [])
    ∧ extract_holidays (inr (g1 ++ g2)) target_name = (inr es, [])
    ∧ es1 `prefix_of` es
    ∧ (∃ st' new,
          row_step target_name st row = inr st'
          ∧ my_booked_dates st' = my_booked_dates st ++ new
          ∧ Date <$> new `sublist_of` (current_block_dates st).*2)
    ∧ Sorted entry_le (sort_values es)
    ∧ sort_values es ≡ₚ es.
Proof.
  do 2 eexists. rewrite !extract_holidays_eq, foldl_app.
  split; [reflexivity|]. split; [reflexivity|]. split; [apply foldl_prefix|].
  split; [|split].
  - rewrite row_step_total. unfold next_state. destruct (is_anchor row); simpl.
    + eexists _, []. rewrite app_nil_r. split; [reflexivity|]. split; [done|].
      apply sublist_nil_l.
    + eexists _, _. split; [reflexivity|]. split; [done|].
      apply row_entries_sublist.
  - apply (Sorted_merge_sort entry_le).
  - apply (merge_sort_Permutation entry_le).
Qed.

(** C8. The scan raises on no grid.  A row with fewer than three cells
    leaves the whole scan state as it was, so dropping it from the grid
    changes nothing; an item of the block whose column is at or beyond the
    length of the row is passed over; and the loop over the block ends
    normally, with entries only for columns inside the row. *)
Theorem extract_never_raises (target_name : string) (df pre post : grid)
  (short row : list cell) (st : scan_state) (items : block) (acc : list entry)
  (col_idx : nat) (date_val : timestamp) :
  (length short < 3)%nat →
  (length row <= col_idx)%nat →
  (∃ es, extract_holidays (inr df) target_name = (inr es, []))
  ∧ row_step target_name st short = inr st
  ∧ extract_holidays (inr (pre ++ short :: post)) target_name
    = extract_holidays (inr (pre ++ post)) target_name
  ∧ book_row row ((col_idx, date_val) :: items) acc = book_row row items acc
  ∧ (∃ new, book_row row items acc = inr (acc ++ new)
            ∧ ∀ e, e ∈ new → ∃ i, (i < length row)%nat ∧ (i, Date e) ∈ items).
Proof.
  intros Hshort Hcol. split; [|split; [|split; [|split]]].
  - eexists. apply extract_holidays_eq.
  - by apply row_step_short.
  - unfold extract_holidays.
    assert (∀ s, scan_rows target_name s (short :: post) = scan_rows target_name s post)
      as Hdrop.
    { intros s. simpl. by rewrite row_step_short. }
    rewrite !scan_rows_total, !foldl_app.
    pose proof (Hdrop (foldl (next_state target_name) scan_init pre)) as H.
    rewrite !scan_rows_total in H. injection H as H. simpl in *. by rewrite H.
  - simpl. destruct (Nat.ltb_spec col_idx (length row)); [lia|reflexivity].
  - rewrite book_row_spec. eexists. split; [reflexivity|].
    intros e [[i d] [Hin He]]%list_elem_of_omap.
    apply leave_entry_date in He as (-> & Hi & _). by exists i.
Qed.

Lemma extract_never_raises_witness :
  ∃ es, extract_holidays (inr ragged_grid) "Smith, John" = (inr es, []).
Proof.
  apply (extract_never_raises "Smith, John" ragged_grid [] [] [CNaN]
           [CNaN; CStr "Smith, John"; CStr "AL"] scan_init
           [(2%nat, Stamp (midnight (ymd 2024 1 1)))] [] 3%nat (midnight (ymd 2024 1 2))).
  - simpl. lia.
  - simpl. lia.
Defined.

(** * Properties of the calendar reconciliation *)

Section BucketLemmas.

Implicit Types (m : day_buckets) (d : date) (s x : string) (l : list string).

Lemma mem_true x l : PyStr.mem x l = true ↔ x ∈ l.
Proof. unfold PyStr.mem. apply bool_decide_eq_true. Qed.

Lemma elem_of_bucket_add x s (old : option (list string)) :
  x ∈ bucket_add s old ↔ x = s ∨ x ∈ default [] old.
Proof.
  unfold bucket_add. destruct old as [l|]; simpl.
  - destruct (PyStr.mem s l) eqn:Hm.
    + apply mem_true in Hm. split; [by right|]. by intros [->|?].
    + rewrite elem_of_app, list_elem_of_singleton. tauto.
  - rewrite list_elem_of_singleton. split; [by left|].
    intros [?|?%elem_of_nil]; done.
Qed.

Lemma NoDup_bucket_add s (old : option (list string)) :
  NoDup (default [] old) → NoDup (bucket_add s old).
Proof.
  unfold bucket_add. destruct old as [l|]; simpl; intros Hnd.
  - destruct (PyStr.mem s l) eqn:Hm; [done|].
    apply NoDup_app. split; [done|]. split; [|apply NoDup_singleton].
    intros x Hx ->%list_elem_of_singleton.
    apply mem_true in Hx. congruence.
  - apply NoDup_singleton.
Qed.

Lemma add_summary_lookup d s m d' :
  add_summary d s m !! d'
  = if decide (d' = d) then Some (bucket_add s (m !! d)) else m !! d'.
Proof.
  unfold add_summary, bucket_add.
  destruct (m !! d) as [l|] eqn:Hl.
  - destruct (PyStr.mem s l); case_decide; subst;
      rewrite ?lookup_insert_eq, ?lookup_insert_ne; done.
  - case_decide; subst; rewrite ?lookup_insert_eq, ?lookup_insert_ne; done.
Qed.

Lemma add_summary_present d s m l :
  m !! d = Some l → s ∈ l → add_summary d s m = m.
Proof.
  intros Hl Hs. unfold add_summary. rewrite Hl.
  apply mem_true in Hs. by rewrite Hs.
Qed.

Lemma mark_days_lookup s (cur en : date) m d :
  mark_days s cur en m !! d
  = if decide (cur <= d < en) then Some (bucket_add s (m !! d)) else m !! d.
Proof.
  funelim (mark_days s cur en m).
  - rewrite H, !add_summary_lookup. clear Heq Heqcall H.
    repeat case_decide; subst; try lia; done.
  - clear Heq Heqcall. case_decide; [lia|done].
Qed.

End BucketLemmas.

Section CollectLemmas.

Implicit Types (m : day_buckets) (d : date) (e : event) (evs : list event).

Lemma process_event_inv m e m' :
  process_event m e = inr m'
  ↔ ∃ start_date end_date,
      event_span e = inr (start_date, end_date)
      ∧ m' = mark_days (summary_of e) start_date end_date m.
Proof.
  unfold process_event. destruct (event_span e) as [x|[s en]]; simpl.
  - split; [done|]. by intros (? & ? & ? & _).
  - split.
    + intros [= <-]. by exists s, en.
    + intros (? & ? & [= <- <-] & ->). done.
Qed.

Lemma collect_events_cons_inv e evs m m' :
  collect_events (e :: evs) m = inr m'
  → ∃ m1, process_event m e = inr m1 ∧ collect_events evs m1 = inr m'.
Proof.
  simpl. destruct (process_event m e) as [x|m1]; simpl; [done|]. by exists m1.
Qed.

Lemma collect_events_app evs1 evs2 m :
  collect_events (evs1 ++ evs2) m
  = collect_events evs1 m ≫= collect_events evs2.
Proof.
  revert m. induction evs1 as [|e evs1 IH]; intros m; simpl; [done|].
  destruct (process_event m e); simpl; [done|]. apply IH.
Qed.

Lemma mark_days_elem (s x : string) (cur en : date) m d :
  x ∈ default [] (mark_days s cur en m !! d)
  ↔ x ∈ default [] (m !! d) ∨ (x = s ∧ cur <= d < en).
Proof.
  rewrite mark_days_lookup. case_decide; simpl.
  - rewrite elem_of_bucket_add. tauto.
  - tauto.
Qed.

Lemma collect_events_elem evs m m' d (x : string) :
  collect_events evs m = inr m' →
  x ∈ default [] (m' !! d)
  ↔ x ∈ default [] (m !! d) ∨ ∃ e, e ∈ evs ∧ summary_of e = x ∧ covers e d.
Proof.
  revert m. induction evs as [|e evs IH]; intros m Hc.
  - simpl in Hc. injection Hc as <-. split; [by left|].
    intros [?|(e & ?%elem_of_nil & _)]; done.
  - apply collect_events_cons_inv in Hc as (m1 & Hp & Hc).
    apply process_event_inv in Hp as (s & en & Hspan & ->).
    rewrite (IH _ Hc), mark_days_elem. split.
    + intros [[?|[-> Hd]]|(e' & He' & Hx & Hcov)].
      * by left.
      * right. exists e. split; [by left|]. split; [done|]. by exists s, en.
      * right. exists e'. split; [by right|]. done.
    + intros [?|(e' & He' & Hx & Hcov)]; [by left; left|].
      apply elem_of_cons in He' as [->|He'].
      * left. right. split; [done|].
        destruct Hcov as (s' & en' & Hspan' & Hd).
        rewrite Hspan in Hspan'. by injection Hspan' as <- <-.
      * right. by exists e'.
Qed.

Lemma collect_events_keys evs m m' d :
  collect_events evs m = inr m' →
  is_Some (m' !! d) ↔ is_Some (m !! d) ∨ ∃ e, e ∈ evs ∧ covers e d.
Proof.
  revert m. induction evs as [|e evs IH]; intros m Hc.
  - simpl in Hc. injection Hc as <-. split; [by left|].
    intros [?|(e & ?%elem_of_nil & _)]; done.
  - apply collect_events_cons_inv in Hc as (m1 & Hp & Hc).
    apply process_event_inv in Hp as (s & en & Hspan & ->).
    rewrite (IH _ Hc), mark_days_lookup. split.
    + intros [Hs|(e' & He' & Hcov)].
      * case_decide; [|by left]. right. exists e. split; [by left|]. by exists s, en.
      * right. exists e'. split; [by right|]. done.
    + intros [Hs|(e' & He' & Hcov)].
      * left. by case_decide.
      * apply elem_of_cons in He' as [->|He']; [|right; by exists e'].
        left. destruct Hcov as (s' & en' & Hspan' & Hd).
        rewrite Hspan in Hspan'. injection Hspan' as <- <-.
        by rewrite decide_True.
Qed.

Lemma collect_events_NoDup evs m m' :
  collect_events evs m = inr m' →
  (∀ d l, m !! d = Some l → NoDup l) →
  ∀ d l, m' !! d = Some l → NoDup l.
Proof.
  revert m. induction evs as [|e evs IH]; intros m Hc Hm.
  - simpl in Hc. by injection Hc as <-.
  - apply collect_events_cons_inv in Hc as (m1 & Hp & Hc).
    apply process_event_inv in Hp as (s & en & Hspan & ->).
    apply (IH _ Hc). intros d l. rewrite mark_days_lookup.
    case_decide; [|apply Hm]. intros [= <-]. apply NoDup_bucket_add.
    destruct (m !! d) as [l'|] eqn:Hl; simpl; [by eapply Hm|constructor].
Qed.

Lemma fetch_body_inv (W : feed_world) (url : string) (a b : dt_value)
  (final_map : gmap Z string) :
  fetch_body W url a b = inr final_map
  ↔ ∃ evs m, expanded_events W url a b = inr evs
             ∧ collect_events evs ∅ = inr m
             ∧ final_map = display_text <$> m.
Proof.
  unfold fetch_body, expanded_events.
  destruct (requests_get W url) as [x|resp]; simpl; [by split; [|intros (?&?&?&_)]|].
  destruct (raise_for_status W resp) as [x|[]]; simpl; [by split; [|intros (?&?&?&_)]|].
  destruct (from_ical W resp) as [x|cal]; simpl; [by split; [|intros (?&?&?&_)]|].
  destruct (between W cal a b) as [x|evs]; simpl; [by split; [|intros (?&?&?&_)]|].
  destruct (collect_events evs ∅) as [x|m] eqn:Hc; simpl.
  - split; [done|]. intros (? & ? & [= <-] & Hc' & _). congruence.
  - split.
    + intros [= <-]. by exists evs, m.
    + intros (? & ? & [= <-] & Hc' & ->).
      rewrite Hc in Hc'. by injection Hc' as <-.
Qed.

Lemma fetch_google_events_ok (W : feed_world) (url : string) (a b : dt_value)
  (final_map : gmap Z string) (diags : list diagnostic) (d : date) :
  fetch_google_events W url a b = (final_map, diags) →
  is_Some (final_map !! d) →
  fetch_body W url a b = inr final_map.
Proof.
  unfold fetch_google_events. case_bool_decide.
  - intros [= <- <-]. rewrite lookup_empty. by intros [? ?].
  - destruct (fetch_body W url a b) as [x|fm].
    + intros [= <- <-]. rewrite lookup_empty. by intros [? ?].
    + by intros [= <- <-].
Qed.

End CollectLemmas.

Section MarkerLemmas.

Lemma append_cons (c : ascii) (p r : string) :
  String c p +:+ r = String c (p +:+ r).
Proof. reflexivity. Qed.

Lemma prefix_spec (p s : string) :
  String.prefix p s = true ↔ ∃ r, s = p +:+ r.
Proof.
  revert s. induction p as [|c p IH]; intros s.
  - split; [intros _; by exists s|]. intros _. by destruct s.
  - destruct s as [|c' s]; simpl; [split; [done|by intros [? ?]]|].
    destruct (Ascii.ascii_dec c c') as [->|Hne].
    + rewrite IH. split; intros [r Hr]; exists r; rewrite append_cons in *; congruence.
    + split; [done|]. intros [r Hr]. rewrite append_cons in Hr. congruence.
Qed.

Lemma contains_spec (needle s : string) :
  PyStr.contains needle s = true
  ↔ ∃ before after, s = before +:+ needle +:+ after.
Proof.
  induction s as [|c s IH].
  - change (PyStr.contains needle "") with (String.prefix needle "" || false).
    rewrite orb_true_iff, prefix_spec. split.
    + intros [[r Hr]|?]; [|done]. by exists "", r.
    + intros (before & after & H). left. exists after.
      destruct before; [done|]. rewrite append_cons in H. discriminate H.
  - change (PyStr.contains needle (String c s))
      with (String.prefix needle (String c s) || PyStr.contains needle s).
    rewrite orb_true_iff, prefix_spec, IH. split.
    + intros [[r Hr]|(before & after & ->)].
      * by exists "", r.
      * by exists (String c before), after.
    + intros (before & after & H). destruct before as [|c' before].
      * left. by exists after.
      * right. rewrite append_cons in H. injection H as -> ->.
        by exists before, after.
Qed.

Lemma is_al_ref_spec (s : string) : is_al_ref s = true ↔ has_marker s.
Proof. apply contains_spec. Qed.

Lemma filter_is_al_ref_nil (l : list string) :
  List.filter is_al_ref l = [] ↔ ∀ s, s ∈ l → ¬ has_marker s.
Proof.
  induction l as [|x l IH]; simpl.
  - split; [|done]. by intros _ s ?%elem_of_nil.
  - destruct (is_al_ref x) eqn:Hx.
    + split; [done|]. intros H. destruct (H x); [by left|].
      by apply is_al_ref_spec.
    + rewrite IH. split.
      * intros H s [->|Hs]%elem_of_cons; [|by apply H].
        rewrite <- is_al_ref_spec. congruence.
      * intros H s Hs. apply H. by right.
Qed.

Lemma display_text_spec (summary_list : list string) :
  ((∃ s, s ∈ summary_list ∧ has_marker s) →
   display_text summary_list
   = PyStr.join "; " (List.filter is_al_ref summary_list))
  ∧ ((∀ s, s ∈ summary_list → ¬ has_marker s) →
     display_text summary_list = PyStr.join "; " summary_list).
Proof.
  unfold display_text. split.
  - intros (s & Hs & Hm).
    destruct (List.filter is_al_ref summary_list) eqn:Hf; [|done].
    pose proof (proj1 (filter_is_al_ref_nil _) Hf) as Hno.
    by destruct (Hno s Hs).
  - intros H. by rewrite (proj2 (filter_is_al_ref_nil _) H).
Qed.

Lemma display_text_parts (summary_list : list string) :
  NoDup summary_list →
  ∃ parts, display_text summary_list = PyStr.join "; " parts
           ∧ NoDup parts ∧ parts ⊆ summary_list.
Proof.
  intros Hnd. unfold display_text.
  destruct (List.filter is_al_ref summary_list) as [|x l] eqn:Hf.
  - by exists summary_list.
  - exists (x :: l). split; [done|]. rewrite <- Hf. split.
    + apply NoDup_ListNoDup, List.NoDup_filter. by apply NoDup_ListNoDup.
    + intros s Hs%list_elem_of_In%List.filter_In. apply list_elem_of_In. tauto.
Qed.

End MarkerLemmas.

Lemma event_span_resolved (e : event) (dt_start : dt_value) :
  DTSTART e = Some dt_start →
  as_date dt_start < max_ordinal →
  event_span e
  = inr (as_date dt_start,
         match DTEND e with
         | Some dt_end =>
             if decide (as_date dt_end = as_date dt_start)
             then as_date dt_start + 1 else as_date dt_end
         | None => as_date dt_start + 1
         end).
Proof.
  intros Hs Hmax. unfold event_span, add_day. rewrite Hs. simpl.
  destruct (Z.ltb_spec (as_date dt_start) max_ordinal) as [_|?]; [|lia].
  destruct (DTEND e) as [dt_end|]; simpl.
  - destruct (Z.eqb_spec (as_date dt_start) (as_date dt_end)) as [Heq|Hne]; simpl.
    + by rewrite decide_True.
    + by rewrite decide_False.
  - destruct (Z.eqb_spec (as_date dt_start) (as_date dt_start + 1)); [lia|done].
Qed.

(** C3. An event with a start that is not the last representable day
    resolves to the span from its start date to: its start plus one day
    when it has no end or when its end date equals its start date, and its
    end date otherwise.  Processing it puts its summary in the bucket of
    every day from the start up to, and not including, the end, and touches
    no other day; this holds too for every event of a list that is processed
    as a whole.  The event over [2024-01-10, 2024-01-13) fills exactly the
    10th, 11th and 12th. *)
Theorem event_day_span (e : event) (dt_start : dt_value) (events_map : day_buckets) :
  DTSTART e = Some dt_start →
  as_date dt_start < max_ordinal →
  ∃ end_date,
    event_span e = inr (as_date dt_start, end_date)
    ∧ (DTEND e = None → end_date = as_date dt_start + 1)
    ∧ (∀ dt_end, DTEND e = Some dt_end →
         end_date = if decide (as_date dt_end = as_date dt_start)
                    then as_date dt_start + 1 else as_date dt_end)
    ∧ (∀ dt_end d, DTEND e = Some dt_end → as_date dt_end = as_date dt_start →
         as_date dt_start <= d < end_date ↔ d = as_date dt_start)
    ∧ (∃ m', process_event events_map e = inr m'
             ∧ ∀ d, m' !! d
                    = if decide (as_date dt_start <= d < end_date)
                      then Some (bucket_add (summary_of e) (events_map !! d))
                      else events_map !! d)
    ∧ (∀ evs m d, e ∈ evs → collect_events evs ∅ = inr m →
         as_date dt_start <= d < end_date →
         summary_of e ∈ default [] (m !! d))
    ∧ process_event ∅ (to_event trip)
      = inr (<[ymd 2024 1 12 := ["Trip"]]>
               (<[ymd 2024 1 11 := ["Trip"]]> {[ymd 2024 1 10 := ["Trip"]]})).
Proof.
  intros Hs Hmax. pose proof (event_span_resolved e dt_start Hs Hmax) as Hspan.
  eexists. split; [exact Hspan|]. split; [|split; [|split; [|split; [|split]]]].
  - by intros ->.
  - by intros dt_end ->.
  - intros dt_end d -> Heq. rewrite decide_True by done. lia.
  - eexists. split.
    + apply process_event_inv. eexists _, _. split; [exact Hspan|reflexivity].
    + intros d. apply mark_days_lookup.
  - intros evs m d He Hc Hd.
    apply (collect_events_elem evs ∅ m d (summary_of e) Hc).
    right. exists e. split; [done|]. split; [done|].
    eexists _, _. split; [exact Hspan|done].
  - vm_compute. reflexivity.
Qed.

Lemma event_day_span_witness :
  ∃ end_date,
    event_span untitled = inr (ymd 2024 1 10, end_date)
    ∧ (DTEND untitled = None → end_date = ymd 2024 1 10 + 1).
Proof.
  destruct (event_day_span untitled (DDate (ymd 2024 1 10)) ∅) as (en & H1 & H2 & _).
  - reflexivity.
  - reflexivity.
  - exists en. split; [exact H1|exact H2].
Defined.

Example zero_length_event_one_day :
  process_event ∅ (to_event (mkPlain "Call" (ymd 2024 1 10) (ymd 2024 1 10)))
  = inr {[ymd 2024 1 10 := ["Call"]]}.
Proof. vm_compute. reflexivity. Qed.

(** C4. Every display text of the returned map is that of the bucket
    collected for its day: when some summary of the bucket contains
    "al ref", letter case ignored, the text is the "; "-join of exactly the
    summaries that contain it, in bucket order; when none does, it is the
    "; "-join of the whole bucket. *)
Theorem marker_filter (W : feed_world) (url : string) (a b : dt_value)
  (final_map : gmap Z string) (diags : list diagnostic) (d : date) (txt : string) :
  fetch_google_events W url a b = (final_map, diags) →
  final_map !! d = Some txt →
  ∃ m summary_list,
    day_map W url a b = inr m
    ∧ m !! d = Some summary_list
    ∧ ((∃ s, s ∈ summary_list ∧ has_marker s) →
       txt = PyStr.join "; " (List.filter is_al_ref summary_list))
    ∧ ((∀ s, s ∈ summary_list → ¬ has_marker s) →
       txt = PyStr.join "; " summary_list)
    ∧ (∀ s, s ∈ List.filter is_al_ref summary_list ↔ s ∈ summary_list ∧ has_marker s).
Proof.
  intros Hf Hd.
  pose proof (fetch_google_events_ok W url a b final_map diags d Hf (mk_is_Some _ _ Hd))
    as Hbody.
  apply fetch_body_inv in Hbody as (evs & m & Hev & Hc & ->).
  rewrite lookup_fmap in Hd.
  destruct (m !! d) as [summary_list|] eqn:Hm; [|done].
  injection Hd as <-. exists m, summary_list.
  split; [unfold day_map; by rewrite Hev|]. split; [done|].
  destruct (display_text_spec summary_list) as [Hyes Hno].
  split; [done|]. split; [done|].
  intros s. rewrite list_elem_of_In, List.filter_In, <- list_elem_of_In.
  by rewrite is_al_ref_spec.
Qed.

Lemma marker_filter_witness :
  ∃ m summary_list,
    day_map (plain_feed marked_day) feed_url
      (DDate (ymd 2024 1 1)) (DDate (ymd 2024 1 31)) = inr m
    ∧ m !! ymd 2024 1 10 = Some summary_list
    ∧ ((∃ s, s ∈ summary_list ∧ has_marker s) →
       "AL Ref 4411" = PyStr.join "; " (List.filter is_al_ref summary_list)).
Proof.
  destruct (marker_filter (plain_feed marked_day) feed_url
              (DDate (ymd 2024 1 1)) (DDate (ymd 2024 1 31))
              (<[ymd 2024 1 11 := "Dentist"]> {[ymd 2024 1 10 := "AL Ref 4411"]})
              [] (ymd 2024 1 10) "AL Ref 4411")
    as (m & l & H1 & H2 & H3 & _).
  - vm_compute. reflexivity.
  - vm_compute. reflexivity.
  - exists m, l. split; [exact H1|]. split; [exact H2|exact H3].
Defined.

(** What fails of C6 as stated: the window asked for is 2024-01-10 to
    2024-01-20 and the feed holds one trip from 2024-01-05 to 2024-01-12.
    The trip overlaps the window, so the expansion returns it, and the loop
    over its days then fills 2024-01-05, which lies before the window. *)
Lemma window_not_respected :
  ∃ final_map,
    fetch_google_events (plain_feed [early_trip]) feed_url
      (DDate (ymd 2024 1 10)) (DDate (ymd 2024 1 20)) = (final_map, [])
    ∧ final_map !! ymd 2024 1 5 = Some "Trip"
    ∧ ¬ (ymd 2024 1 10 <= ymd 2024 1 5 <= ymd 2024 1 20).
Proof.
  eexists. split; [vm_compute; reflexivity|]. split; [vm_compute; reflexivity|].
  vm_compute. intros [H _]. by apply H.
Qed.

(** C6, amended.  Every date key of the returned map is a day of the
    resolved span of an occurrence that the expansion returned for the
    window; the days of an occurrence are not cut to the window, so the key
    lies within the window when that occurrence's span does. *)
Theorem keys_are_covered_days (W : feed_world) (url : string) (a b : dt_value)
  (final_map : gmap Z string) (diags : list diagnostic) (d : date) :
  fetch_google_events W url a b = (final_map, diags) →
  is_Some (final_map !! d) →
  ∃ evs e start_date end_date,
    expanded_events W url a b = inr evs
    ∧ e ∈ evs
    ∧ event_span e = inr (start_date, end_date)
    ∧ start_date <= d < end_date
    ∧ (as_date a <= start_date → end_date <= as_date b + 1 →
       as_date a <= d <= as_date b).
Proof.
  intros Hf Hd.
  pose proof (fetch_google_events_ok W url a b final_map diags d Hf Hd) as Hbody.
  apply fetch_body_inv in Hbody as (evs & m & Hev & Hc & ->).
  rewrite lookup_fmap, fmap_is_Some in Hd.
  apply (collect_events_keys evs ∅ m d Hc) in Hd as [Hd|(e & He & s & en & Hspan & Hin)].
  - rewrite lookup_empty in Hd. by destruct Hd.
  - exists evs, e, s, en. repeat split; try done; lia.
Qed.

Lemma keys_are_covered_days_witness :
  ∃ evs e start_date end_date,
    expanded_events (plain_feed [early_trip]) feed_url
      (DDate (ymd 2024 1 10)) (DDate (ymd 2024 1 20)) = inr evs
    ∧ e ∈ evs
    ∧ event_span e = inr (start_date, end_date)
    ∧ start_date <= ymd 2024 1 5 < end_date.
Proof.
  destruct (keys_are_covered_days (plain_feed [early_trip]) feed_url
              (DDate (ymd 2024 1 10)) (DDate (ymd 2024 1 20))
              (fetch_google_events (plain_feed [early_trip]) feed_url
                 (DDate (ymd 2024 1 10)) (DDate (ymd 2024 1 20))).1
              [] (ymd 2024 1 5))
    as (evs & e & s & en & H1 & H2 & H3 & H4 & _).
  - vm_compute. reflexivity.
  - vm_compute. eexists. reflexivity.
  - exists evs, e, s, en. split; [exact H1|]. split; [exact H2|].
    split; [exact H3|exact H4].
Defined.

(** C7. [fetch_google_events] always returns a map with its diagnostics.
    With an empty URL it returns the empty map and shows nothing, whatever
    the collaborators would do.  Otherwise, when any step of the body
    raises (the request, the status check, the parse, the expansion, or the
    processing of an event after others have already filled buckets) the
    result is the empty map with one diagnostic that carries the text of
    the exception; a map is returned non-empty only with no diagnostic. *)
Theorem reconcile_never_raises (W : feed_world) (url : string) (a b : dt_value) :
  ∃ final_map diags,
    fetch_google_events W url a b = (final_map, diags)
    ∧ (url = "" → final_map = ∅ ∧ diags = [])
    ∧ (∀ x, url ≠ "" → fetch_body W url a b = inl x →
         final_map = ∅
         ∧ diags = ["Could not load Google Calendar: " +:+ exn_text x])
    ∧ (∀ fm, url ≠ "" → fetch_body W url a b = inr fm → final_map = fm ∧ diags = [])
    ∧ (diags ≠ [] → final_map = ∅)
    ∧ (∀ x, requests_get W url = inl x → fetch_body W url a b = inl x)
    ∧ (∀ resp x, requests_get W url = inr resp → raise_for_status W resp = inl x →
         fetch_body W url a b = inl x)
    ∧ (∀ resp x, requests_get W url = inr resp → raise_for_status W resp = inr tt →
         from_ical W resp = inl x → fetch_body W url a b = inl x)
    ∧ (∀ x, expanded_events W url a b = inl x → fetch_body W url a b = inl x)
    ∧ (∀ evs1 bad evs2 m1 x,
         expanded_events W url a b = inr (evs1 ++ bad :: evs2) →
         collect_events evs1 ∅ = inr m1 →
         process_event m1 bad = inl x →
         fetch_body W url a b = inl x).
Proof.
  exists (fetch_google_events W url a b).1, (fetch_google_events W url a b).2.
  split; [by destruct (fetch_google_events W url a b)|].
  unfold fetch_google_events.
  split; [|split; [|split; [|split; [|split; [|split; [|split; [|split]]]]]]].
  - intros Hu. by rewrite bool_decide_eq_true_2.
  - intros x Hu Hb. rewrite bool_decide_eq_false_2 by done. by rewrite Hb.
  - intros fm Hu Hb. rewrite bool_decide_eq_false_2 by done. by rewrite Hb.
  - case_bool_decide; [done|]. by destruct (fetch_body W url a b).
  - intros x Hx. unfold fetch_body. by rewrite Hx.
  - intros resp x Hr Hx. unfold fetch_body. rewrite Hr. simpl. rewrite Hx. reflexivity.
  - intros resp x Hr Hs Hx. unfold fetch_body. rewrite Hr. simpl. rewrite Hs. simpl.
    rewrite Hx. reflexivity.
  - intros x. unfold expanded_events, fetch_body.
    destruct (requests_get W url) as [?|resp]; exc_simpl; [by intros [= ->]|].
    destruct (raise_for_status W resp) as [?|[]]; exc_simpl; [by intros [= ->]|].
    destruct (from_ical W resp) as [?|cal]; exc_simpl; [by intros [= ->]|].
    destruct (between W cal a b) as [?|evs]; exc_simpl; [by intros [= ->]|]. done.
  - intros evs1 bad evs2 m1 x. unfold expanded_events, fetch_body.
    destruct (requests_get W url) as [?|resp]; exc_simpl; [done|].
    destruct (raise_for_status W resp) as [?|[]]; exc_simpl; [done|].
    destruct (from_ical W resp) as [?|cal]; exc_simpl; [done|].
    destruct (between W cal a b) as [?|evs]; exc_simpl; [done|].
    intros [= ->] Hc Hp. rewrite collect_events_app, Hc.
    cbn [mbind exc_bind collect_events]. rewrite Hp. reflexivity.
Qed.

Lemma reconcile_never_raises_witness :
  fetch_body
    (scripted_feed (inr tt) (inr tt) (inr tt) (inr ([to_event trip] ++ no_start :: [])))
    feed_url (DDate (ymd 2024 1 1)) (DDate (ymd 2024 1 31))
  = inl AttributeError.
Proof.
  destruct (reconcile_never_raises
              (scripted_feed (inr tt) (inr tt) (inr tt)
                 (inr ([to_event trip] ++ no_start :: [])))
              feed_url (DDate (ymd 2024 1 1)) (DDate (ymd 2024 1 31)))
    as (fm & diags & _ & _ & _ & _ & _ & _ & _ & _ & _ & H).
  apply (H [to_event trip] no_start []
           (<[ymd 2024 1 12 := ["Trip"]]>
              (<[ymd 2024 1 11 := ["Trip"]]> {[ymd 2024 1 10 := ["Trip"]]}))
           AttributeError).
  - reflexivity.
  - vm_compute. reflexivity.
  - reflexivity.
Defined.

Example unreachable_feed_empty_map :
  fetch_google_events
    (scripted_feed (inl (ExternalError "404 Client Error")) (inr tt) (inr tt) (inr []))
    feed_url (DDate (ymd 2024 1 1)) (DDate (ymd 2024 1 31))
  = (∅, ["Could not load Google Calendar: 404 Client Error"]).
Proof. reflexivity. Qed.

Example broken_event_empty_map :
  fetch_google_events
    (scripted_feed (inr tt) (inr tt) (inr tt) (inr [to_event trip; no_start]))
    feed_url (DDate (ymd 2024 1 1)) (DDate (ymd 2024 1 31))
  = (∅, ["Could not load Google Calendar: 'NoneType' object has no attribute 'dt'"]).
Proof. vm_compute. reflexivity. Qed.

Example standup_once :
  fetch_google_events (plain_feed standup_twice) feed_url
    (DDate (ymd 2024 1 1)) (DDate (ymd 2024 1 31))
  = (<[ymd 2024 1 11 := "Standup"]> {[ymd 2024 1 10 := "Standup"]}, []).
Proof. vm_compute. reflexivity. Qed.

(** C9. When a summary is already in the bucket of a day, adding it again
    leaves the map as it was, and so does, for that day, processing any
    further event with the same summary text; a text that is not in the
    bucket, however close, is appended at its end.  Hence, from an empty
    map, no bucket ever holds a text twice: when two occurrences of the
    feed with the same summary text cover a day, the bucket of that day
    holds the text at exactly one position.  Every display text of the
    returned map is the "; "-join of the bucket of its day or of the
    summaries of that bucket that contain "al ref", and either list holds
    no text twice. *)
Theorem summaries_deduplicated (d : date) (summary : string)
  (events_map : day_buckets) (bucket : list string) :
  events_map !! d = Some bucket →
  summary ∈ bucket →
  add_summary d summary events_map = events_map
  ∧ (∀ e m', summary_of e = summary → process_event events_map e = inr m' →
       m' !! d = Some bucket)
  ∧ (∀ other, other ∉ bucket →
       add_summary d other events_map !! d = Some (bucket ++ [other]))
  ∧ (∀ evs m d' l, collect_events evs ∅ = inr m → m !! d' = Some l → NoDup l)
  ∧ (∀ evs m e1 e2 d',
       collect_events evs ∅ = inr m →
       e1 ∈ evs → e2 ∈ evs →
       summary_of e1 = summary_of e2 →
       covers e1 d' → covers e2 d' →
       ∃ l1 l2, m !! d' = Some (l1 ++ summary_of e1 :: l2)
                ∧ (summary_of e1 ∉ l1) ∧ (summary_of e1 ∉ l2))
  ∧ (∀ W url a b final_map diags d' txt,
       fetch_google_events W url a b = (final_map, diags) →
       final_map !! d' = Some txt →
       ∃ m summary_list parts,
         day_map W url a b = inr m
         ∧ m !! d' = Some summary_list
         ∧ NoDup summary_list
         ∧ (parts = summary_list ∨ parts = List.filter is_al_ref summary_list)
         ∧ NoDup parts
         ∧ txt = PyStr.join "; " parts).
Proof.
  intros Hb Hs.
  assert (∀ evs m d' l, collect_events evs ∅ = inr m → m !! d' = Some l → NoDup l)
    as Hnodup.
  { intros evs m d' l Hc. apply (collect_events_NoDup evs ∅ m Hc).
    intros ? ?. by rewrite lookup_empty. }
  split; [|split; [|split; [|split; [|split]]]].
  - by eapply add_summary_present.
  - intros e m' <- (s & en & _ & ->)%process_event_inv.
    rewrite mark_days_lookup, Hb. case_decide; [|done].
    unfold bucket_add. apply mem_true in Hs. by rewrite Hs.
  - intros other Hno. rewrite add_summary_lookup, decide_True by done.
    rewrite Hb. unfold bucket_add, PyStr.mem. by rewrite bool_decide_eq_false_2.
  - exact Hnodup.
  - intros evs m e1 e2 d' Hc He1 _ _ Hcov _.
    assert (summary_of e1 ∈ default [] (m !! d')) as Hin.
    { apply (collect_events_elem evs ∅ m d' _ Hc). right. by exists e1. }
    destruct (m !! d') as [l|] eqn:Hm; [|by apply elem_of_nil in Hin].
    simpl in Hin. pose proof (Hnodup evs m d' l Hc Hm) as Hnd.
    apply list_elem_of_split in Hin as (l1 & l2 & ->). exists l1, l2.
    split; [done|]. apply NoDup_app in Hnd as (_ & Hl1 & Hl2).
    apply NoDup_cons in Hl2 as [Hl2 _]. split; [|done].
    intros Hx. apply (Hl1 _ Hx). by left.
  - intros W url a b final_map diags d' txt Hf Hd.
    pose proof (fetch_google_events_ok W url a b final_map diags d' Hf
                  (mk_is_Some _ _ Hd)) as Hbody.
    apply fetch_body_inv in Hbody as (evs & m & Hev & Hc & ->).
    rewrite lookup_fmap in Hd.
    destruct (m !! d') as [l|] eqn:Hm; [|done]. injection Hd as <-.
    pose proof (Hnodup evs m d' l Hc Hm) as Hnd.
    exists m, l. unfold display_text.
    destruct (List.filter is_al_ref l) as [|x parts] eqn:Hfil.
    + exists l. split; [unfold day_map; by rewrite Hev|]. by repeat split; [..|left|].
    + exists (x :: parts). split; [unfold day_map; by rewrite Hev|].
      split; [done|]. split; [done|]. split; [by right|]. split; [|done].
      rewrite <- Hfil. apply NoDup_ListNoDup, List.NoDup_filter.
      by apply NoDup_ListNoDup.
Qed.

Lemma summaries_deduplicated_witness :
  add_summary (ymd 2024 1 10) "Standup" {[ymd 2024 1 10 := ["Standup"]]}
  = {[ymd 2024 1 10 := ["Standup"]]}.
Proof.
  apply (summaries_deduplicated (ymd 2024 1 10) "Standup"
           {[ymd 2024 1 10 := ["Standup"]]} ["Standup"]).
  - reflexivity.
  - by left.
Defined.

(** C10. An occurrence without SUMMARY is processed like any other, under
    the text "Busy": it raises nothing of its own, and when the
    reconciliation succeeds every day of its span is a key of the returned
    map and holds "Busy" in its bucket. *)
Theorem missing_summary_is_busy (W : feed_world) (url : string) (a b : dt_value)
  (evs : list event) (e : event) (start_date end_date d : date)
  (final_map : gmap Z string) :
  url ≠ "" →
  expanded_events W url a b = inr evs →
  e ∈ evs →
  SUMMARY e = None →
  event_span e = inr (start_date, end_date) →
  fetch_body W url a b = inr final_map →
  start_date <= d < end_date →
  summary_of e = "Busy"
  ∧ (∀ m0, process_event m0 e = inr (mark_days "Busy" start_date end_date m0))
  ∧ (∃ m l, day_map W url a b = inr m ∧ m !! d = Some l ∧ "Busy" ∈ l)
  ∧ fetch_google_events W url a b = (final_map, [])
  ∧ is_Some (final_map !! d).
Proof.
  intros Hu Hev He Hsum Hspan Hbody Hd.
  assert (summary_of e = "Busy") as Hbusy by (unfold summary_of; by rewrite Hsum).
  apply fetch_body_inv in Hbody as Hinv. destruct Hinv as (evs' & m & Hev' & Hc & ->).
  rewrite Hev in Hev'. injection Hev' as <-.
  assert (covers e d) as Hcov by (by exists start_date, end_date).
  assert ("Busy" ∈ default [] (m !! d)) as Hin.
  { apply (collect_events_elem evs ∅ m d "Busy" Hc). right. by exists e. }
  destruct (m !! d) as [l|] eqn:Hm; [|by apply elem_of_nil in Hin].
  split; [done|]. split; [|split; [|split]].
  - intros m0. apply process_event_inv. exists start_date, end_date.
    by rewrite Hbusy.
  - exists m, l. unfold day_map. rewrite Hev. done.
  - unfold fetch_google_events. rewrite bool_decide_eq_false_2 by done.
    by rewrite Hbody.
  - rewrite lookup_fmap, Hm. by eexists.
Qed.

Lemma missing_summary_is_busy_witness :
  fetch_google_events
    (scripted_feed (inr tt) (inr tt) (inr tt) (inr [untitled]))
    feed_url (DDate (ymd 2024 1 1)) (DDate (ymd 2024 1 31))
  = ({[ymd 2024 1 10 := "Busy"]}, []).
Proof.
  apply (missing_summary_is_busy
           (scripted_feed (inr tt) (inr tt) (inr tt) (inr [untitled]))
           feed_url (DDate (ymd 2024 1 1)) (DDate (ymd 2024 1 31))
           [untitled] untitled (ymd 2024 1 10) (ymd 2024 1 11) (ymd 2024 1 10)
           {[ymd 2024 1 10 := "Busy"]}).
  - discriminate.
  - reflexivity.
  - by left.
  - reflexivity.
  - reflexivity.
  - vm_compute. reflexivity.
  - vm_compute. split; [discriminate|reflexivity].
Defined.

(** * Further properties of the text helpers *)

Section TextLemmas.

Lemma remove_class_app (cls : ascii -> bool) (a b : string) :
  PyStr.remove_class cls (a +:+ b)
  = PyStr.remove_class cls a +:+ PyStr.remove_class cls b.
Proof.
  induction a as [|c a IH]; [reflexivity|].
  rewrite append_cons. simpl. destruct (cls c); [done|].
  by rewrite append_cons, IH.
Qed.

Lemma remove_class_all (cls : ascii -> bool) (w : string) :
  all_chars cls w = true → PyStr.remove_class cls w = "".
Proof.
  induction w as [|c w IH]; simpl; [done|].
  intros [Hc Hw]%andb_true_iff. rewrite Hc. by apply IH.
Qed.

Lemma remove_class_none (cls : ascii -> bool) (s : string) :
  all_chars (fun c => negb (cls c)) s = true → PyStr.remove_class cls s = s.
Proof.
  induction s as [|c s IH]; simpl; [done|].
  intros [Hc Hs]%andb_true_iff. apply negb_true_iff in Hc. rewrite Hc.
  by rewrite IH.
Qed.

Lemma remove_class_clean (cls : ascii -> bool) (s : string) :
  all_chars (fun c => negb (cls c)) (PyStr.remove_class cls s) = true.
Proof.
  induction s as [|c s IH]; simpl; [done|].
  destruct (cls c) eqn:Hc; simpl; [done|]. by rewrite Hc.
Qed.

End TextLemmas.

(** X1. What [clean_leave_type] returns holds no whitespace and no digit,
    cleaning it again changes nothing, and a text that holds neither is
    returned as it is. *)
Theorem clean_leave_type_idempotent (text : string) :
  all_chars (fun c => negb (space_or_digit c)) (clean_leave_type text) = true
  ∧ clean_leave_type (clean_leave_type text) = clean_leave_type text
  ∧ (all_chars (fun c => negb (space_or_digit c)) text = true →
     clean_leave_type text = text).
Proof.
  unfold clean_leave_type. split; [|split].
  - apply (remove_class_clean space_or_digit).
  - apply (remove_class_none space_or_digit), (remove_class_clean space_or_digit).
  - apply (remove_class_none space_or_digit).
Qed.

Lemma clean_leave_type_idempotent_witness : clean_leave_type "Sick" = "Sick".
Proof.
  apply (clean_leave_type_idempotent "Sick"). reflexivity.
Defined.

(** X2. Grouping: cleaning goes through concatenation, so two codes that
    differ only by a run of whitespace and digits anywhere inside them get
    the same type. *)
Theorem clean_leave_type_groups (a w b : string) :
  all_chars space_or_digit w = true →
  clean_leave_type (a +:+ b) = clean_leave_type a +:+ clean_leave_type b
  ∧ clean_leave_type (a +:+ w +:+ b) = clean_leave_type (a +:+ b).
Proof.
  intros Hw. unfold clean_leave_type.
  rewrite !(remove_class_app space_or_digit).
  by rewrite (remove_class_all space_or_digit w Hw).
Qed.

Lemma clean_leave_type_groups_witness :
  clean_leave_type ("AL" +:+ " 2" +:+ "") = clean_leave_type ("AL" +:+ "").
Proof.
  apply (clean_leave_type_groups "AL" " 2" ""). reflexivity.
Defined.

Section StripLemmas.

Lemma isspace_lower_char (c : ascii) :
  PyStr.isspace (PyStr.lower_char c) = PyStr.isspace c.
Proof. destruct c as [[] [] [] [] [] [] [] []]; reflexivity. Qed.

Lemma lower_char_idem (c : ascii) :
  PyStr.lower_char (PyStr.lower_char c) = PyStr.lower_char c.
Proof. destruct c as [[] [] [] [] [] [] [] []]; reflexivity. Qed.

Lemma lower_idem (s : string) : PyStr.lower (PyStr.lower s) = PyStr.lower s.
Proof.
  induction s as [|c s IH]; simpl; [done|]. by rewrite lower_char_idem, IH.
Qed.

Lemma lstrip_lower (s : string) :
  PyStr.lstrip (PyStr.lower s) = PyStr.lower (PyStr.lstrip s).
Proof.
  induction s as [|c s IH]; simpl; [done|].
  rewrite isspace_lower_char. by destruct (PyStr.isspace c).
Qed.

Lemma rstrip_lower (s : string) :
  PyStr.rstrip (PyStr.lower s) = PyStr.lower (PyStr.rstrip s).
Proof.
  induction s as [|c s IH]; simpl; [done|].
  rewrite IH, isspace_lower_char.
  destruct (PyStr.rstrip s); simpl; [|done]. by destruct (PyStr.isspace c).
Qed.

Lemma strip_lower (s : string) :
  PyStr.strip (PyStr.lower s) = PyStr.lower (PyStr.strip s).
Proof. unfold PyStr.strip. by rewrite rstrip_lower, lstrip_lower. Qed.

Lemma rstrip_cons (c : ascii) (r : string) :
  PyStr.rstrip (String c r)
  = match PyStr.rstrip r with
    | EmptyString => if PyStr.isspace c then EmptyString else String c EmptyString
    | r' => String c r'
    end.
Proof. reflexivity. Qed.

Lemma lstrip_rstrip (s : string) :
  PyStr.lstrip (PyStr.rstrip s) = PyStr.rstrip (PyStr.lstrip s).
Proof.
  induction s as [|c s IH]; [done|].
  rewrite rstrip_cons. cbn [PyStr.lstrip].
  destruct (PyStr.isspace c) eqn:Hc.
  - rewrite <- IH. destruct (PyStr.rstrip s); [done|].
    cbn [PyStr.lstrip]. by rewrite Hc.
  - rewrite rstrip_cons.
    destruct (PyStr.rstrip s); cbn [PyStr.lstrip]; by rewrite Hc.
Qed.

Lemma lstrip_idem (s : string) : PyStr.lstrip (PyStr.lstrip s) = PyStr.lstrip s.
Proof.
  induction s as [|c s IH]; [done|]. cbn [PyStr.lstrip].
  destruct (PyStr.isspace c) eqn:Hc; [done|]. cbn [PyStr.lstrip]. by rewrite Hc.
Qed.

Lemma rstrip_idem (s : string) : PyStr.rstrip (PyStr.rstrip s) = PyStr.rstrip s.
Proof.
  induction s as [|c s IH]; [done|]. rewrite rstrip_cons.
  destruct (PyStr.rstrip s) as [|c' r'] eqn:Hr.
  - destruct (PyStr.isspace c) eqn:Hc; [done|].
    rewrite rstrip_cons. cbn [PyStr.rstrip]. by rewrite Hc.
  - rewrite rstrip_cons, IH. done.
Qed.

Lemma strip_idem (s : string) : PyStr.strip (PyStr.strip s) = PyStr.strip s.
Proof.
  unfold PyStr.strip.
  by rewrite (lstrip_rstrip (PyStr.lstrip _)), lstrip_idem, <- lstrip_rstrip, rstrip_idem.
Qed.

Lemma lstrip_spaces (w t : string) :
  all_chars PyStr.isspace w = true → PyStr.lstrip (w +:+ t) = PyStr.lstrip t.
Proof.
  induction w as [|c w IH]; [done|]. cbn [all_chars].
  intros [Hc Hw]%andb_true_iff. rewrite append_cons. cbn [PyStr.lstrip].
  rewrite Hc. by apply IH.
Qed.

Lemma rstrip_all_spaces (w : string) :
  all_chars PyStr.isspace w = true → PyStr.rstrip w = "".
Proof.
  induction w as [|c w IH]; [done|]. cbn [all_chars].
  intros [Hc Hw]%andb_true_iff. rewrite rstrip_cons, (IH Hw). by rewrite Hc.
Qed.

Lemma rstrip_spaces (t w : string) :
  all_chars PyStr.isspace w = true → PyStr.rstrip (t +:+ w) = PyStr.rstrip t.
Proof.
  intros Hw. induction t as [|c t IH].
  - by apply rstrip_all_spaces.
  - by rewrite append_cons, !rstrip_cons, IH.
Qed.

Lemma strip_spaces (w1 t w2 : string) :
  all_chars PyStr.isspace w1 = true →
  all_chars PyStr.isspace w2 = true →
  PyStr.strip (w1 +:+ t +:+ w2) = PyStr.strip t.
Proof.
  intros H1 H2. unfold PyStr.strip.
  by rewrite lstrip_rstrip, lstrip_spaces, <- lstrip_rstrip, rstrip_spaces.
Qed.

Lemma name_matches_key (c : cell) (t t' : string) :
  PyStr.lower (PyStr.strip t) = PyStr.lower (PyStr.strip t') →
  name_matches c t = name_matches c t'.
Proof. unfold name_matches. by intros ->. Qed.

Lemma scan_rows_key (t t' : string) (st : scan_state) (df : grid) :
  PyStr.lower (PyStr.strip t) = PyStr.lower (PyStr.strip t') →
  scan_rows t st df = scan_rows t' st df.
Proof.
  intros Hk. revert st. induction df as [|row df IH]; intros st; [done|].
  cbn [scan_rows].
  assert (row_step t st row = row_step t' st row) as ->; [|destruct (row_step t' st row); [done|apply IH]].
  unfold row_step. destruct (length row <? 3)%nat; [done|].
  destruct (row_get row 1) as [|b]; [done|]. exc_simpl.
  destruct (row_get row 2) as [|c]; [done|]. exc_simpl.
  by rewrite (name_matches_key b t t' Hk).
Qed.

End StripLemmas.

(** X3. The target name is matched without regard to letter case and to
    whitespace around it: the extraction gives the same result for the name
    in lower case and for the name wrapped in whitespace, and a name cell of
    the roster may differ from the target in the same ways. *)
Theorem target_name_insensitive (read_excel : exc grid) (target_name w1 w2 : string)
  (cell_name : string) :
  all_chars PyStr.isspace w1 = true →
  all_chars PyStr.isspace w2 = true →
  extract_holidays read_excel (PyStr.lower target_name)
  = extract_holidays read_excel target_name
  ∧ extract_holidays read_excel (w1 +:+ target_name +:+ w2)
    = extract_holidays read_excel target_name
  ∧ name_matches (CStr (w1 +:+ cell_name +:+ w2)) target_name
    = name_matches (CStr cell_name) target_name
  ∧ name_matches (CStr (PyStr.lower cell_name)) target_name
    = name_matches (CStr cell_name) target_name.
Proof.
  intros H1 H2.
  assert (∀ t t', PyStr.lower (PyStr.strip t) = PyStr.lower (PyStr.strip t') →
                  extract_holidays read_excel t = extract_holidays read_excel t') as Hx.
  { intros t t' Hk. unfold extract_holidays. destruct read_excel as [e|df]; [done|].
    by rewrite (scan_rows_key t t' scan_init df Hk). }
  split; [|split; [|split]].
  - apply Hx. by rewrite strip_lower, lower_idem.
  - apply Hx. by rewrite strip_spaces.
  - unfold name_matches. cbn [py_str]. by rewrite strip_spaces.
  - unfold name_matches. cbn [py_str]. by rewrite strip_lower, lower_idem.
Qed.

Lemma target_name_insensitive_witness :
  extract_holidays (inr [smith_anchor CNaN CNaN; smith_row]) (" " +:+ "SMITH, john" +:+ "  ")
  = extract_holidays (inr [smith_anchor CNaN CNaN; smith_row]) "SMITH, john".
Proof.
  apply (target_name_insensitive (inr [smith_anchor CNaN CNaN; smith_row])
           "SMITH, john" " " "  " "Smith, John").
  - reflexivity.
  - reflexivity.
Defined.

(** * Further properties of the roster extraction *)

Section OriginLemmas.

Variable target_name : string.

Lemma leave_entry_inv (row : list cell) (i : nat) (d : timestamp) (e : entry) :
  leave_entry row (i, d) = Some e
  ↔ ∃ c, row !! i = Some c
         ∧ notna c = true
         ∧ (PyStr.strip (py_str c) ∉ placeholders)
         ∧ e = mkEntry d (PyStr.strip (py_str c))
                 (clean_leave_type (PyStr.strip (py_str c))).
Proof.
  unfold leave_entry. cbn [fst snd]. destruct (row !! i) as [c|]; simpl.
  - destruct (notna c) eqn:Hn; simpl.
    + unfold PyStr.mem. case_bool_decide as Hm; simpl.
      * split; [done|]. intros (c' & [= <-] & _ & Hno & _). done.
      * split.
        -- intros [= <-]. by exists c.
        -- intros (c' & [= <-] & _ & _ & ->). done.
    + split; [done|]. intros (c' & [= <-] & ? & _). congruence.
  - split; [done|]. by intros (c' & ? & _).
Qed.

Lemma row_entries_inv (b : block) (row : list cell) (e : entry) :
  e ∈ row_entries target_name b row
  ↔ ∃ nm i d, row !! 1%nat = Some nm
              ∧ name_matches nm target_name = true
              ∧ (3 <= length row)%nat
              ∧ (i, d) ∈ b
              ∧ leave_entry row (i, d) = Some e.
Proof.
  unfold row_entries. destruct (row !! 1%nat) as [nm|].
  - destruct (Nat.leb_spec 3 (length row)) as [Hlen|Hlen]; simpl.
    + destruct (name_matches nm target_name) eqn:Hm.
      * rewrite list_elem_of_omap. split.
        -- intros [[i d] [Hin He]]. by exists nm, i, d.
        -- intros (nm' & i & d & [= <-] & _ & _ & Hin & He). by exists (i, d).
      * split; [by intros ?%elem_of_nil|].
        intros (nm' & i & d & [= <-] & ? & _). congruence.
    + split; [by intros ?%elem_of_nil|].
      intros (nm' & i & d & _ & _ & ? & _). lia.
  - split; [by intros ?%elem_of_nil|]. by intros (nm' & i & d & ? & _).
Qed.

Lemma foldl_entries_origin (st : scan_state) (df : grid) (e : entry) :
  e ∈ my_booked_dates (foldl (next_state target_name) st df) →
  e ∈ my_booked_dates st
  ∨ ∃ row b, row ∈ df ∧ e ∈ row_entries target_name b row.
Proof.
  revert st. induction df as [|row df IH]; intros st; simpl; [by left|].
  intros [He|(row' & b & Hin & He)]%IH.
  - unfold next_state in He. destruct (is_anchor row); simpl in He; [by left|].
    apply elem_of_app in He as [He|He]; [by left|].
    right. exists row, (current_block_dates st). split; [by left|done].
  - right. exists row', b. split; [by right|done].
Qed.

Lemma last_anchor (df : grid) :
  no_anchor df
  ∨ ∃ pre a mid, df = pre ++ a :: mid ∧ is_anchor a = true ∧ no_anchor mid.
Proof.
  induction df as [|row df IH]; [left; constructor|].
  destruct IH as [Hno|(pre & a & mid & -> & Ha & Hmid)].
  - destruct (is_anchor row) eqn:Hrow.
    + right. by exists [], row, df.
    + left. by constructor.
  - right. by exists (row :: pre), a, mid.
Qed.

Lemma block_no_anchor (df : grid) :
  no_anchor df →
  current_block_dates (foldl (next_state target_name) scan_init df) = [].
Proof.
  intros Hno.
  by destruct (foldl_no_anchor target_name scan_init df Hno) as (new & -> & _).
Qed.

Lemma block_last_anchor (pre : grid) (a : list cell) (mid : grid) :
  is_anchor a = true → no_anchor mid →
  current_block_dates (foldl (next_state target_name) scan_init (pre ++ a :: mid))
  = date_cells a (seq 2 (length a - 2)).
Proof.
  intros Ha Hmid. rewrite foldl_app. simpl.
  destruct (foldl_no_anchor target_name
              (next_state target_name (foldl (next_state target_name) scan_init pre) a)
              mid Hmid) as (new & -> & _).
  unfold next_state. by rewrite Ha.
Qed.

Lemma row_entries_yields (a r : list cell) (e : entry) :
  e ∈ row_entries target_name (date_cells a (seq 2 (length a - 2))) r
  ↔ yields a r target_name e.
Proof.
  rewrite row_entries_inv. unfold yields. split.
  - intros (nm & i & d & Hnm & Hm & _ & Hin & He).
    apply date_cells_elem in Hin as [Hi Ha].
    apply leave_entry_inv in He as (c & Hc & Hn & Hp & ->).
    by exists nm, i, c.
  - intros (nm & i & c & Hnm & Hm & Hi & Ha & Hc & Hn & Ho & Hp & Ht).
    exists nm, i, (Date e). split; [done|]. split; [done|].
    split; [apply lookup_lt_Some in Hc; lia|]. split.
    + by apply date_cells_elem.
    + apply leave_entry_inv. exists c. split; [done|]. split; [done|].
      split; [by rewrite <- Ho|]. destruct e as [d o t]. simpl in *. by subst.
Qed.

End OriginLemmas.

(** X4. Every entry the extraction returns has an original code that is
    trimmed (no whitespace at either end), is not empty and is none of the
    placeholders "0", "nan", "None", "0.0"; its type is that code
    cleaned. *)
Theorem entries_are_real_codes (df : grid) (target_name : string)
  (es : list entry) (e : entry) :
  extract_holidays (inr df) target_name = (inr es, []) →
  e ∈ es →
  (Original_Type e ∉ placeholders)
  ∧ Original_Type e ≠ ""
  ∧ PyStr.strip (Original_Type e) = Original_Type e
  ∧ Type_ e = clean_leave_type (Original_Type e).
Proof.
  rewrite extract_holidays_eq. intros [= <-] He.
  apply foldl_entries_origin in He as [He|(row & b & _ & He)];
    [by apply elem_of_nil in He|].
  apply row_entries_inv in He as (nm & i & d & _ & _ & _ & _ & He).
  apply leave_entry_inv in He as (c & _ & _ & Hp & ->). simpl.
  split; [done|]. split; [|split; [apply strip_idem|done]].
  intros Heq. apply Hp. rewrite Heq. by left.
Qed.

Lemma entries_are_real_codes_witness :
  Original_Type (mkEntry (midnight (ymd 2024 1 1)) "AL1" "AL") ≠ "".
Proof.
  apply (entries_are_real_codes [smith_anchor CNaN CNaN; smith_row] "Smith, John"
           [mkEntry (midnight (ymd 2024 1 1)) "AL1" "AL"]
           (mkEntry (midnight (ymd 2024 1 1)) "AL1" "AL")).
  - reflexivity.
  - by left.
Defined.

(** X5. When no row of the grid has a name cell that matches the target,
    the extraction returns the empty list, without a diagnostic. *)
Theorem no_match_no_entries (df : grid) (target_name : string) :
  (∀ row nm, row ∈ df → row !! 1%nat = Some nm →
             name_matches nm target_name = false) →
  extract_holidays (inr df) target_name = (inr [], []).
Proof.
  intros Hno. rewrite extract_holidays_eq.
  destruct (my_booked_dates (foldl (next_state target_name) scan_init df))
    as [|e es] eqn:Hb; [done|].
  assert (e ∈ my_booked_dates (foldl (next_state target_name) scan_init df)) as He
    by (rewrite Hb; by left).
  apply foldl_entries_origin in He as [He|(row & b & Hin & He)];
    [by apply elem_of_nil in He|].
  apply row_entries_inv in He as (nm & i & d & Hnm & Hm & _).
  rewrite (Hno row nm Hin Hnm) in Hm. done.
Qed.

Lemma no_match_no_entries_witness :
  extract_holidays (inr [smith_anchor CNaN CNaN; smith_row]) "Jones, Ann"
  = (inr [], []).
Proof.
  apply (no_match_no_entries [smith_anchor CNaN CNaN; smith_row] "Jones, Ann").
  intros row nm Hrow Hnm.
  apply elem_of_cons in Hrow as [->|Hrow].
  - injection Hnm as <-. reflexivity.
  - apply list_elem_of_singleton in Hrow as ->. injection Hnm as <-. reflexivity.
Defined.

(** X6. The extraction is exact: an entry is returned if and only if the
    grid holds a data row with a matching name that, under the last anchor
    row before it, has at some date column a cell that is not missing and
    whose trimmed text is not a placeholder; the entry carries that date,
    that text and the text cleaned. *)
Theorem extraction_exact (df : grid) (target_name : string) :
  ∃ es, extract_holidays (inr df) target_name = (inr es, [])
        ∧ ∀ e, e ∈ es ↔ produced df target_name e.
Proof.
  eexists. split; [apply extract_holidays_eq|]. intros e. split.
  - induction df as [|r df IH] using rev_ind; [by intros ?%elem_of_nil|].
    rewrite foldl_app. simpl. unfold next_state at 1.
    assert (produced df target_name e → produced (df ++ [r]) target_name e) as Hext.
    { intros (pre & a & mid & r0 & post & -> & Ha & Hmid & Hr0 & Hy).
      exists pre, a, mid, r0, (post ++ [r]).
      split; [by rewrite <- !app_assoc, <- !app_comm_cons, <- app_assoc|done]. }
    destruct (is_anchor r) eqn:Hr; simpl; [by intros ?%IH%Hext|].
    intros [He|He]%elem_of_app; [by apply Hext, IH|].
    destruct (last_anchor df) as [Hno|(pre & a & mid & -> & Ha & Hmid)].
    + rewrite (block_no_anchor target_name df Hno) in He.
      apply row_entries_inv in He as (? & ? & ? & _ & _ & _ & ?%elem_of_nil & _).
      done.
    + rewrite (block_last_anchor target_name pre a mid Ha Hmid) in He.
      apply row_entries_yields in He.
      exists pre, a, mid, r, []. split; [by rewrite <- app_assoc|done].
  - intros (pre & a & mid & r & post & -> & Ha & Hmid & Hr & Hy).
    replace (pre ++ a :: mid ++ r :: post) with ((pre ++ a :: mid) ++ [r] ++ post)
      by (by rewrite <- !app_assoc, <- !app_comm_cons).
    rewrite foldl_app.
    pose proof (foldl_prefix target_name
                  (foldl (next_state target_name)
                     (foldl (next_state target_name) scan_init (pre ++ a :: mid)) [r])
                  post) as [k Hk].
    rewrite foldl_app, Hk. apply elem_of_app. left.
    simpl. unfold next_state at 1. rewrite Hr. simpl.
    apply elem_of_app. right.
    rewrite (block_last_anchor target_name pre a mid Ha Hmid).
    by apply row_entries_yields.
Qed.

(** * Further properties of the calendar reconciliation *)

Section SpanLemmas.

Implicit Types (m : day_buckets) (d : date) (e : event) (evs : list event).

Lemma mark_days_empty (s : string) (cur en : date) m :
  en <= cur → mark_days s cur en m = m.
Proof.
  intros Hle. apply map_eq. intros d. rewrite mark_days_lookup.
  case_decide; [lia|done].
Qed.

Lemma mark_days_noop (s : string) (cur en : date) m :
  (∀ d, cur <= d < en → s ∈ default [] (m !! d)) →
  mark_days s cur en m = m.
Proof.
  intros Hin. apply map_eq. intros d. rewrite mark_days_lookup.
  case_decide as Hd; [|done]. specialize (Hin d Hd). revert Hin. unfold date.
  destruct (m !! d) as [l|]; simpl; [|by intros ?%elem_of_nil].
  intros Hin%mem_true. by rewrite Hin.
Qed.

Lemma collect_events_ok evs m :
  Forall span_ok evs → ∃ m', collect_events evs m = inr m'.
Proof.
  intros Hok. revert m. induction Hok as [|e evs [[s en] He] _ IH]; intros m.
  - by exists m.
  - simpl. unfold process_event. rewrite He. exc_simpl. apply IH.
Qed.

Lemma collect_events_spans evs m m' :
  collect_events evs m = inr m' → Forall span_ok evs.
Proof.
  revert m. induction evs as [|e evs IH]; intros m Hc; [constructor|].
  apply collect_events_cons_inv in Hc as (m1 & Hp & Hc).
  apply process_event_inv in Hp as (s & en & Hs & _).
  constructor; [by exists (s, en)|by eapply IH].
Qed.

Lemma covers_b_spec d e : covers_b d e = true ↔ covers e d.
Proof.
  unfold covers_b, covers. destruct (event_span e) as [x|[s en]].
  - split; [done|]. by intros (? & ? & ? & _).
  - rewrite andb_true_iff, Z.leb_le, Z.ltb_lt. split.
    + intros ?. by exists s, en.
    + by intros (? & ? & [= <- <-] & ?).
Qed.

End SpanLemmas.

(** X7. When resolving the span of an event raises: an event without
    DTSTART raises AttributeError; an event that starts on the last
    representable day and has no end, or an end on that same day, raises
    OverflowError; no other event raises. *)
Theorem event_span_raises (e : event) (x : exn) :
  event_span e = inl x
  ↔ (DTSTART e = None ∧ x = AttributeError)
    ∨ (∃ dt_start,
          DTSTART e = Some dt_start
          ∧ max_ordinal <= as_date dt_start
          ∧ (DTEND e = None
             ∨ ∃ dt_end, DTEND e = Some dt_end ∧ as_date dt_end = as_date dt_start)
          ∧ x = OverflowError).
Proof.
  unfold event_span, add_day.
  destruct (DTSTART e) as [dt_start|]; exc_simpl.
  - destruct (Z.ltb_spec (as_date dt_start) max_ordinal) as [Hlt|Hge].
    + split.
      * destruct (DTEND e) as [dt_end|]; exc_simpl;
          by destruct (as_date dt_start =? _).
      * intros [[? _]|(s & [= <-] & ? & _)]; [done|lia].
    + destruct (DTEND e) as [dt_end|]; exc_simpl.
      * destruct (Z.eqb_spec (as_date dt_start) (as_date dt_end)) as [Heq|Hne];
          exc_simpl.
        -- split.
           ++ intros [= <-]. right. exists dt_start. split; [done|].
              split; [done|]. split; [|done]. right. by exists dt_end.
           ++ by intros [[? _]|(s & [= <-] & _ & _ & ->)].
        -- split; [done|].
           intros [[? _]|(s & [= <-] & _ & [?|(t & [= <-] & ?)] & _)]; done.
      * split.
        -- intros [= <-]. right. exists dt_start. by repeat split; [..|left].
        -- by intros [[? _]|(s & [= <-] & _ & _ & ->)].
  - split.
    + intros [= <-]. by left.
    + by intros [[_ ->]|(s & ? & _)].
Qed.

(** X8. An event whose end date lies before its start date is passed
    over: it raises nothing and leaves every bucket as it was. *)
Theorem inverted_event_ignored (e : event) (dt_start dt_end : dt_value)
  (events_map : day_buckets) :
  DTSTART e = Some dt_start →
  DTEND e = Some dt_end →
  as_date dt_end < as_date dt_start →
  process_event events_map e = inr events_map.
Proof.
  intros Hs He Hlt. unfold process_event, event_span. rewrite Hs, He. exc_simpl.
  destruct (Z.eqb_spec (as_date dt_start) (as_date dt_end)); [lia|]. exc_simpl.
  rewrite mark_days_empty by lia. done.
Qed.

Lemma inverted_event_ignored_witness :
  process_event {[ymd 2024 1 10 := ["Trip"]]}
    (to_event (mkPlain "Back" (ymd 2024 1 12) (ymd 2024 1 9)))
  = inr {[ymd 2024 1 10 := ["Trip"]]}.
Proof.
  apply (inverted_event_ignored
           (to_event (mkPlain "Back" (ymd 2024 1 12) (ymd 2024 1 9)))
           (DDate (ymd 2024 1 12)) (DDate (ymd 2024 1 9))).
  - reflexivity.
  - reflexivity.
  - reflexivity.
Defined.

(** X9. The loop over the occurrences ends normally exactly when the span
    of every occurrence resolves; otherwise it raises what the first
    occurrence whose span does not resolve raises, whatever follows it. *)
Theorem first_failure_reported (evs : list event) (events_map : day_buckets)
  (x : exn) :
  ((∃ m', collect_events evs events_map = inr m') ↔ Forall span_ok evs)
  ∧ (collect_events evs events_map = inl x
     ↔ ∃ evs1 bad evs2,
         evs = evs1 ++ bad :: evs2
         ∧ Forall span_ok evs1
         ∧ event_span bad = inl x).
Proof.
  split.
  - split; [intros [m' Hc]; by eapply collect_events_spans|apply collect_events_ok].
  - split.
    + revert events_map. induction evs as [|e evs IH]; intros m; [done|].
      simpl. unfold process_event at 1.
      destruct (event_span e) as [y|[s en]] eqn:He; exc_simpl.
      * intros [= <-]. exists [], e, evs. by repeat split.
      * intros (evs1 & bad & evs2 & -> & Hok & Hbad)%IH.
        exists (e :: evs1), bad, evs2. split; [done|]. split; [|done].
        constructor; [by exists (s, en)|done].
    + intros (evs1 & bad & evs2 & -> & Hok & Hbad).
      destruct (collect_events_ok evs1 events_map Hok) as [m1 Hc].
      rewrite collect_events_app, Hc. exc_simpl. simpl.
      unfold process_event. by rewrite Hbad.
Qed.

Section OrderLemmas.

Implicit Types (m : day_buckets) (e : event) (evs : list event).

Lemma bucket_add_default (s : string) (old : option (list string)) :
  bucket_add s old = bucket_add s (Some (default [] old)).
Proof. by destruct old. Qed.

Lemma day_summaries_cons e evs (d : Z) :
  day_summaries (e :: evs) d
  = if covers_b d e then summary_of e :: day_summaries evs d
    else day_summaries evs d.
Proof. unfold day_summaries. simpl. by destruct (covers_b d e). Qed.

Lemma day_summaries_nil evs (d : Z) :
  day_summaries evs d = [] ↔ ∀ e, e ∈ evs → ¬ covers e d.
Proof.
  induction evs as [|e evs IH]; [by split; [intros _ ? ?%elem_of_nil|]|].
  rewrite day_summaries_cons. destruct (covers_b d e) eqn:Hc.
  - split; [done|]. intros H. destruct (H e); [by left|by apply covers_b_spec].
  - rewrite IH. split.
    + intros H e' [->|He']%elem_of_cons; [|by apply H].
      rewrite <- covers_b_spec. congruence.
    + intros H e' He'. apply H. by right.
Qed.

Lemma process_event_lookup m e m' (d : Z) :
  process_event m e = inr m' →
  m' !! d = if covers_b d e then Some (bucket_add (summary_of e) (m !! d)) else m !! d.
Proof.
  intros (s & en & Hs & ->)%process_event_inv.
  rewrite mark_days_lookup. unfold covers_b. rewrite Hs.
  case_decide as Hd.
  - by rewrite (proj2 (Z.leb_le _ _)), (proj2 (Z.ltb_lt _ _)) by lia.
  - destruct (Z.leb_spec s d), (Z.ltb_spec d en); simpl; try done. lia.
Qed.

Lemma collect_events_bucket evs m m' (d : Z) :
  collect_events evs m = inr m' →
  default [] (m' !! d)
  = foldl (fun acc s => bucket_add s (Some acc)) (default [] (m !! d))
      (day_summaries evs d)
  ∧ (is_Some (m' !! d) ↔ is_Some (m !! d) ∨ day_summaries evs d ≠ []).
Proof.
  revert m. induction evs as [|e evs IH]; intros m Hc.
  - simpl in Hc. injection Hc as <-. split; [done|]. split; [by left|].
    by intros [?|?].
  - apply collect_events_cons_inv in Hc as (m1 & Hp & Hc).
    destruct (IH m1 Hc) as [Hb Hk]. rewrite Hb, Hk, day_summaries_cons.
    rewrite (process_event_lookup m e m1 d Hp).
    destruct (covers_b d e); [|done].
    rewrite (bucket_add_default (summary_of e) (m !! d)). split; [done|].
    split; [by right|]. intros _. left. by eexists.
Qed.

Lemma first_seen_elem (ss : list string) (s : string) : s ∈ first_seen ss ↔ s ∈ ss.
Proof.
  unfold first_seen. by rewrite elem_of_reverse, elem_of_remove_dups, elem_of_reverse.
Qed.

Lemma foldl_first_seen (ss : list string) :
  foldl (fun acc s => bucket_add s (Some acc)) [] ss = first_seen ss.
Proof.
  induction ss as [|s ss IH] using rev_ind; [done|].
  rewrite foldl_app, IH. cbn [foldl].
  assert (first_seen (ss ++ [s])
          = if decide (s ∈ reverse ss) then first_seen ss else first_seen ss ++ [s])
    as ->.
  { unfold first_seen. rewrite reverse_app.
    change (reverse [s] ++ reverse ss) with (s :: reverse ss). cbn [remove_dups].
    destruct (decide_rel elem_of s (reverse ss)) as [Hin|Hin].
    - by rewrite decide_True.
    - rewrite decide_False by done. by rewrite reverse_cons. }
  unfold bucket_add, PyStr.mem.
  case_bool_decide as Hin; rewrite first_seen_elem in Hin.
  - rewrite decide_True by (by apply elem_of_reverse). done.
  - rewrite decide_False by (by rewrite elem_of_reverse). done.
Qed.

Lemma collect_events_first_seen evs m (d : Z) :
  collect_events evs ∅ = inr m →
  m !! d = match day_summaries evs d with
           | [] => None
           | ss => Some (first_seen ss)
           end.
Proof.
  intros Hc. destruct (collect_events_bucket evs ∅ m d Hc) as [Hb Hk].
  rewrite lookup_empty in Hb, Hk. simpl in Hb. rewrite foldl_first_seen in Hb.
  destruct (day_summaries evs d) as [|s ss] eqn:Hs.
  - destruct (m !! d) eqn:Hm; [|done].
    destruct (proj1 Hk (mk_is_Some _ _ eq_refl)) as [[? ?]|?]; done.
  - destruct (proj2 Hk) as [l Hl]; [by right|]. rewrite Hl in Hb |- *.
    simpl in Hb. by rewrite Hb.
Qed.

Lemma collect_events_again evs' m :
  (∀ e, e ∈ evs' →
        ∃ s en, event_span e = inr (s, en)
                ∧ ∀ d, s <= d < en → summary_of e ∈ default [] (m !! d)) →
  collect_events evs' m = inr m.
Proof.
  induction evs' as [|e evs' IH]; intros H; [done|]. simpl.
  destruct (H e) as (s & en & Hs & Hin); [by left|].
  unfold process_event. rewrite Hs. exc_simpl.
  rewrite mark_days_noop by done. apply IH. intros e' He'. apply H. by right.
Qed.

End OrderLemmas.

(** X10. The map of a successful reconciliation is determined by the
    returned occurrences alone: a day is a key exactly when some occurrence
    covers it, and its text is the display text of the summaries of the
    covering occurrences, each taken once, in the order in which the feed
    first brings them. *)
Theorem reconciled_map_exact (W : feed_world) (url : string) (a b : dt_value)
  (final_map : gmap Z string) :
  fetch_body W url a b = inr final_map →
  ∃ evs,
    expanded_events W url a b = inr evs
    ∧ ∀ d : Z,
        final_map !! d
        = match day_summaries evs d with
          | [] => None
          | ss => Some (display_text (first_seen ss))
          end
        ∧ (is_Some (final_map !! d) ↔ ∃ e, e ∈ evs ∧ covers e d).
Proof.
  intros (evs & m & Hev & Hc & ->)%fetch_body_inv. exists evs. split; [done|].
  intros d. rewrite lookup_fmap, (collect_events_first_seen evs m d Hc). split.
  - by destruct (day_summaries evs d).
  - rewrite fmap_is_Some.
    rewrite <- (collect_events_first_seen evs m d Hc).
    rewrite (collect_events_keys evs ∅ m d Hc), lookup_empty.
    split; [intros [[? ?]|?]; done|by right].
Qed.

Lemma reconciled_map_exact_witness :
  ∃ evs,
    expanded_events (plain_feed marked_day) feed_url
      (DDate (ymd 2024 1 1)) (DDate (ymd 2024 1 31)) = inr evs
    ∧ ∀ d : Z,
        (<[ymd 2024 1 11 := "Dentist"]> {[ymd 2024 1 10 := "AL Ref 4411"]} : gmap Z string)
        !! d
        = match day_summaries evs d with
          | [] => None
          | ss => Some (display_text (first_seen ss))
          end
        ∧ (is_Some
             ((<[ymd 2024 1 11 := "Dentist"]> {[ymd 2024 1 10 := "AL Ref 4411"]}
               : gmap Z string) !! d)
           ↔ ∃ e, e ∈ evs ∧ covers e d).
Proof.
  apply (reconciled_map_exact (plain_feed marked_day) feed_url
           (DDate (ymd 2024 1 1)) (DDate (ymd 2024 1 31))).
  vm_compute. reflexivity.
Defined.

(** X11. The order of the occurrences in the feed does not decide which
    days are keys nor which summaries a day holds: processing a permutation
    of a list that was processed without error ends without error too,
    with the same days and, on each day, the same set of summaries. *)
Theorem order_of_events_irrelevant (evs evs' : list event) (m : day_buckets) :
  evs ≡ₚ evs' →
  collect_events evs ∅ = inr m →
  ∃ m', collect_events evs' ∅ = inr m'
        ∧ dom m' = dom m
        ∧ ∀ (d : Z) (x : string),
            x ∈ default [] (m' !! d) ↔ x ∈ default [] (m !! d).
Proof.
  intros Hp Hc.
  destruct (collect_events_ok evs' ∅) as [m' Hc'].
  { rewrite <- Hp. by eapply collect_events_spans. }
  exists m'. split; [done|]. split.
  - apply set_eq. intros d. rewrite !elem_of_dom.
    rewrite (collect_events_keys evs' ∅ m' d Hc'), (collect_events_keys evs ∅ m d Hc).
    by setoid_rewrite Hp.
  - intros d x.
    rewrite (collect_events_elem evs' ∅ m' d x Hc'), (collect_events_elem evs ∅ m d x Hc).
    by setoid_rewrite Hp.
Qed.

Lemma order_of_events_irrelevant_witness :
  ∃ m', collect_events [to_event early_trip; to_event trip] ∅ = inr m'.
Proof.
  edestruct (order_of_events_irrelevant [to_event trip; to_event early_trip]
               [to_event early_trip; to_event trip]) as (m' & H & _).
  - apply perm_swap.
  - vm_compute. reflexivity.
  - exists m'. exact H.
Defined.

(** X12. Processing is idempotent: when a list of occurrences was
    processed without error, processing the same list again on the result
    changes nothing, so a feed that brings every occurrence twice gives the
    map of the feed that brings each once. *)
Theorem repeated_events_harmless (evs : list event) (m m1 : day_buckets) :
  collect_events evs m = inr m1 →
  collect_events evs m1 = inr m1
  ∧ collect_events (evs ++ evs) m = inr m1.
Proof.
  intros Hc.
  assert (collect_events evs m1 = inr m1) as Hagain.
  { apply collect_events_again. intros e He.
    pose proof (collect_events_spans evs m m1 Hc) as Hok.
    rewrite Forall_forall in Hok. destruct (Hok e He) as [[s en] Hs].
    exists s, en. split; [done|]. intros d Hd.
    apply (collect_events_elem evs m m1 d (summary_of e) Hc).
    right. exists e. split; [done|]. split; [done|]. by exists s, en. }
  split; [done|]. rewrite collect_events_app, Hc. exact Hagain.
Qed.

Lemma repeated_events_harmless_witness :
  collect_events ([to_event trip] ++ [to_event trip]) ∅
  = inr (<[ymd 2024 1 12 := ["Trip"]]>
           (<[ymd 2024 1 11 := ["Trip"]]> {[ymd 2024 1 10 := ["Trip"]]})).
Proof.
  apply (repeated_events_harmless [to_event trip] ∅).
  vm_compute. reflexivity.
Defined.

(** * Further properties of the caller's merge step *)

(** X13. The "My Calendar" column has one cell per record.  With no
    calendar URL every cell reads "No Link Provided" and nothing is shown.
    When the reconciliation fails every cell reads "-" and the one
    diagnostic is shown: the records themselves are not touched.  When it
    succeeds, the cell of a record reads "-" if its date is missing or no
    returned occurrence covers its day, and otherwise the display text of
    the summaries of the covering occurrences in the order of their first
    appearance. *)
Theorem calendar_column_degrades (W : feed_world) (ical_url : string)
  (min_date max_date : dt_value) (df_results : list entry) :
  length (my_calendar W ical_url min_date max_date df_results).1 = length df_results
  ∧ (ical_url = "" →
     my_calendar W ical_url min_date max_date df_results
     = ((fun _ => "No Link Provided") <$> df_results, []))
  ∧ (∀ x, ical_url ≠ "" → fetch_body W ical_url min_date max_date = inl x →
       my_calendar W ical_url min_date max_date df_results
       = ((fun _ => "-") <$> df_results,
          ["Could not load Google Calendar: " +:+ exn_text x]))
  ∧ (∀ evs final_map i e,
       ical_url ≠ "" →
       fetch_body W ical_url min_date max_date = inr final_map →
       expanded_events W ical_url min_date max_date = inr evs →
       df_results !! i = Some e →
       (my_calendar W ical_url min_date max_date df_results).2 = []
       ∧ (my_calendar W ical_url min_date max_date df_results).1 !! i
         = Some (match Date e with
                 | Stamp t =>
                     match day_summaries evs (to_date t) with
                     | [] => "-"
                     | ss => display_text (first_seen ss)
                     end
                 | NaT => "-"
                 end)).
Proof.
  unfold my_calendar, fetch_google_events. split; [|split; [|split]].
  - case_bool_decide; [cbn [fst]; by rewrite length_fmap|].
    destruct (fetch_body W ical_url min_date max_date); cbn [fst];
      by rewrite length_fmap.
  - intros ->. done.
  - intros x Hu Hb. rewrite bool_decide_eq_false_2 by done. rewrite Hb.
    f_equal. apply list_fmap_ext. intros ? e _. by destruct (Date e).
  - intros evs final_map i e Hu Hb Hev Hi. rewrite bool_decide_eq_false_2 by done.
    rewrite Hb. split; [done|]. cbn [fst]. rewrite list_lookup_fmap, Hi. simpl.
    apply fetch_body_inv in Hb as (evs' & m & Hev' & Hc & ->).
    rewrite Hev in Hev'. injection Hev' as <-.
    destruct (Date e) as [t|]; [|done]. simpl.
    rewrite lookup_fmap, (collect_events_first_seen evs m _ Hc).
    by destruct (day_summaries evs (to_date t)).
Qed.

Lemma calendar_column_degrades_witness :
  my_calendar
    (scripted_feed (inl (ExternalError "404 Client Error")) (inr tt) (inr tt) (inr []))
    feed_url (DDate (ymd 2023 12 25)) (DDate (ymd 2024 1 8))
    [mkEntry (midnight (ymd 2024 1 1)) "AL1" "AL"]
  = ((fun _ => "-") <$> [mkEntry (midnight (ymd 2024 1 1)) "AL1" "AL"],
     ["Could not load Google Calendar: " +:+ exn_text (ExternalError "404 Client Error")]).
Proof.
  apply (calendar_column_degrades
           (scripted_feed (inl (ExternalError "404 Client Error")) (inr tt) (inr tt)
              (inr []))
           feed_url (DDate (ymd 2023 12 25)) (DDate (ymd 2024 1 8))
           [mkEntry (midnight (ymd 2024 1 1)) "AL1" "AL"]).
  - discriminate.
  - reflexivity.
Defined.

Section StackLemmas.

Variable target_name : string.

Lemma foldl_from_acc (acc : list entry) (b : block) (g : grid) :
  foldl (next_state target_name) (mkScan acc b) g
  = mkScan
      (acc ++ my_booked_dates (foldl (next_state target_name) (mkScan [] b) g))
      (current_block_dates (foldl (next_state target_name) (mkScan [] b) g)).
Proof.
  revert acc b. induction g as [|row g IH]; intros acc b; simpl.
  - by rewrite app_nil_r.
  - unfold next_state at 2 4 6. simpl.
    destruct (is_anchor row); simpl; [apply IH|].
    rewrite (IH (acc ++ _)), (IH (row_entries target_name b row)). simpl.
    by rewrite app_assoc.
Qed.

End StackLemmas.

(** X14. Sheets stack: when the second part of a grid begins with an
    anchor row, the entries of the whole grid are the entries of the first
    part followed by the entries of the second part read on its own. *)
Theorem stacked_sheets (target_name : string) (g1 : grid) (a : list cell) (g2 : grid) :
  is_anchor a = true →
  ∃ es1 es2,
    extract_holidays (inr g1) target_name = (inr es1, [])
    ∧ extract_holidays (inr (a :: g2)) target_name = (inr es2, [])
    ∧ extract_holidays (inr (g1 ++ a :: g2)) target_name = (inr (es1 ++ es2), []).
Proof.
  intros Ha. eexists _, _. rewrite !extract_holidays_eq, foldl_app.
  split; [reflexivity|]. split; [reflexivity|]. simpl.
  assert (∀ st, next_state target_name st a
                = mkScan (my_booked_dates st) (date_cells a (seq 2 (length a - 2))))
    as Hna by (intros st; unfold next_state; by rewrite Ha).
  rewrite !Hna, foldl_from_acc. done.
Qed.

Lemma stacked_sheets_witness :
  ∃ es1 es2,
    extract_holidays (inr two_line_grid) "Smith, John" = (inr es1, [])
    ∧ extract_holidays (inr (smith_anchor CNaN CNaN :: [smith_row])) "Smith, John"
      = (inr es2, [])
    ∧ extract_holidays (inr (two_line_grid ++ smith_anchor CNaN CNaN :: [smith_row]))
        "Smith, John"
      = (inr (es1 ++ es2), []).
Proof.
  apply (stacked_sheets "Smith, John" two_line_grid (smith_anchor CNaN CNaN) [smith_row]).
  reflexivity.
Defined.
